(** * moveit_servo: the servo calculation loop ([servo_calcs.cpp])

    A shallow embedding of [ServoCalcs] (moveit_ros/moveit_servo) and the
    properties of its periodic tick: command validation, singularity
    scaling, velocity/acceleration limiting, collision scaling, the
    halt-message counter, command staleness, the Gazebo point duplication
    and the worst-case stop time.

    Numbers.  A C++ [double] is modelled by the type [double] below: an
    exact rational, or one of the three IEEE special values.  Arithmetic on
    finite values is exact (rounding is not modelled) and zero is unsigned;
    division by zero, infinities and NaN follow IEEE 754.  Every concrete
    input used in this file is a small dyadic rational, for which the
    binary64 computation is exact as well. *)

From Stdlib Require Import ZArith QArith Qabs Lqa Lia Bool.
From stdpp Require Import base option list strings gmap.

Local Open Scope Z_scope.

(* ===================================================================== *)
(** ** IEEE-style doubles over exact rationals                            *)
(* ===================================================================== *)

Inductive double : Type :=
| Fin (q : Q)
| PInf
| NInf
| NaN.

Declare Scope dbl_scope.
Delimit Scope dbl_scope with D.
Bind Scope dbl_scope with double.

Definition Qltb (a b : Q) : bool := negb (Qle_bool b a).

Definition d0 : double := Fin 0.
Definition d1 : double := Fin 1.
Definition dZ (z : Z) : double := Fin (inject_Z z).

Definition isnan (a : double) : bool :=
  match a with NaN => true | _ => false end.

Definition isfinite (a : double) : bool :=
  match a with Fin _ => true | _ => false end.

Definition dneg (a : double) : double :=
  match a with
  | Fin q => Fin (- q)
  | PInf => NInf
  | NInf => PInf
  | NaN => NaN
  end.

Definition fabs (a : double) : double :=
  match a with
  | Fin q => Fin (Qabs q)
  | PInf | NInf => PInf
  | NaN => NaN
  end.

Definition dadd (a b : double) : double :=
  match a, b with
  | NaN, _ | _, NaN => NaN
  | Fin p, Fin q => Fin (p + q)
  | PInf, NInf | NInf, PInf => NaN
  | PInf, _ | _, PInf => PInf
  | NInf, _ | _, NInf => NInf
  end.

Definition dsub (a b : double) : double := dadd a (dneg b).

(** Sign of an infinite product or quotient: [s] is the infinite operand,
    [q] the finite one. *)
Definition inf_times (s : double) (q : Q) : double :=
  if Qeq_bool q 0 then NaN
  else if Qltb 0 q then s else dneg s.

Definition dmul (a b : double) : double :=
  match a, b with
  | NaN, _ | _, NaN => NaN
  | Fin p, Fin q => Fin (p * q)
  | Fin p, (PInf | NInf) => inf_times b p
  | (PInf | NInf), Fin q => inf_times a q
  | PInf, PInf | NInf, NInf => PInf
  | PInf, NInf | NInf, PInf => NInf
  end.

Definition ddiv (a b : double) : double :=
  match a, b with
  | NaN, _ | _, NaN => NaN
  | Fin p, Fin q =>
      if Qeq_bool q 0 then
        (if Qeq_bool p 0 then NaN else if Qltb 0 p then PInf else NInf)
      else Fin (p / q)
  | Fin _, (PInf | NInf) => Fin 0
  | (PInf | NInf), Fin q => if Qltb q 0 then dneg a else a
  | (PInf | NInf), (PInf | NInf) => NaN
  end.

(** Comparisons: every comparison with NaN is false, except [!=]. *)
Definition dltb (a b : double) : bool :=
  match a, b with
  | NaN, _ | _, NaN => false
  | Fin p, Fin q => Qltb p q
  | NInf, NInf => false
  | NInf, _ => true
  | _, NInf => false
  | PInf, _ => false
  | _, PInf => true
  end.

Definition deqb (a b : double) : bool :=
  match a, b with
  | Fin p, Fin q => Qeq_bool p q
  | PInf, PInf | NInf, NInf => true
  | _, _ => false
  end.

Definition dgtb (a b : double) : bool := dltb b a.
Definition dleb (a b : double) : bool := dltb a b || deqb a b.
Definition dgeb (a b : double) : bool := dleb b a.
Definition dneqb (a b : double) : bool := negb (deqb a b).

(** [std::max(a, b)] is [(a < b) ? b : a]; [std::min(a, b)] is
    [(b < a) ? b : a]. *)
Definition dmax (a b : double) : double := if dltb a b then b else a.
Definition dmin (a b : double) : double := if dltb b a then b else a.

Infix "+" := dadd : dbl_scope.
Infix "-" := dsub : dbl_scope.
Infix "*" := dmul : dbl_scope.
Infix "/" := ddiv : dbl_scope.
Infix "<?" := dltb : dbl_scope.
Infix ">?" := dgtb : dbl_scope.
Infix "<=?" := dleb : dbl_scope.
Infix ">=?" := dgeb : dbl_scope.
Infix "==?" := deqb (at level 70) : dbl_scope.
Infix "!=?" := dneqb (at level 70) : dbl_scope.

(** Propositional order on doubles, through the C++ operators. *)
Definition dlt (a b : double) : Prop := dltb a b = true.
Definition dle (a b : double) : Prop := dleb a b = true.
Definition deq (a b : double) : Prop := deqb a b = true.

(* ===================================================================== *)
(** ** Eigen vectors and matrices                                         *)
(* ===================================================================== *)

(** [Eigen::VectorXd] and [Eigen::ArrayXd] are lists of doubles; a matrix
    is the list of its rows. *)
Abbreviation vec := (list double).
Abbreviation matrix := (list (list double)).

Definition vzero (n : nat) : vec := replicate n d0.
Definition vscale (c : double) (v : vec) : vec := (fun a => (a * c)%D) <$> v.
Definition vdiv (v : vec) (c : double) : vec := (fun a => (a / c)%D) <$> v.
Definition vadd (u v : vec) : vec := zip_with dadd u v.
Definition vsub (u v : vec) : vec := zip_with dsub u v.
Definition vdot (u v : vec) : double := foldl dadd d0 (zip_with dmul u v).

Definition mrows (m : matrix) : nat := length m.
Definition mcols (m : matrix) : nat := from_option length 0%nat (head m).
Definition mcol (m : matrix) (j : nat) : vec := (fun r => default d0 (r !! j)) <$> m.
Definition mtranspose (m : matrix) : matrix := (fun j => mcol m j) <$> seq 0 (mcols m).
Definition mat_vec (m : matrix) (v : vec) : vec := (fun r => vdot r v) <$> m.
Definition mat_mul (a b : matrix) : matrix :=
  (fun r => (fun j => vdot r (mcol b j)) <$> seq 0 (mcols b)) <$> a.

(** [singularValues().asDiagonal()] followed by [.inverse()]: the diagonal
    matrix of the reciprocals. *)
Definition diag_inverse (s : vec) : matrix :=
  imap (fun i a => <[i := (d1 / a)%D]> (vzero (length s))) s.

(** The result of [Eigen::JacobiSVD]. *)
Record SVD := {
  singularValues : vec;
  matrixU : matrix;
  matrixV : matrix;
}.

(** [Eigen::Isometry3d], by its rotation and translation parts. *)
Record Isometry3d := {
  iso_linear : matrix;
  iso_translation : vec;
}.

Definition iso_inverse (t : Isometry3d) : Isometry3d :=
  let rt := mtranspose (iso_linear t) in
  {| iso_linear := rt;
     iso_translation := dneg <$> mat_vec rt (iso_translation t) |}.

Definition iso_mul (a b : Isometry3d) : Isometry3d :=
  {| iso_linear := mat_mul (iso_linear a) (iso_linear b);
     iso_translation :=
       vadd (mat_vec (iso_linear a) (iso_translation b)) (iso_translation a) |}.

(* ===================================================================== *)
(** ** Messages, parameters and the robot model                           *)
(* ===================================================================== *)

(** Time stamps ([rclcpp::Time], [builtin_interfaces::msg::Time]) are
    nanosecond counts. *)
Record Header := {
  stamp : Z;
  frame_id : string;
}.

Record Vector3 := { x : double; y : double; z : double }.

Record Twist := { linear : Vector3; angular : Vector3 }.

Record TwistStamped := {
  ts_header : Header;
  twist : Twist;
}.

Record JointJog := {
  jj_header : Header;
  jj_joint_names : list string;
  jj_velocities : vec;
}.

Record JointState := {
  js_name : list string;
  js_position : vec;
  js_velocity : vec;
}.

Record JointTrajectoryPoint := {
  positions : vec;
  velocities : vec;
  accelerations : vec;
  time_from_start : double;
}.

Record JointTrajectory := {
  jt_header : Header;
  joint_names : list string;
  points : list JointTrajectoryPoint;
}.

(** A default-constructed [JointTrajectoryPoint]. *)
Definition empty_point : JointTrajectoryPoint :=
  {| positions := []; velocities := []; accelerations := [];
     time_from_start := d0 |}.

Definition empty_header : Header := {| stamp := 0; frame_id := "" |}.

Definition empty_trajectory : JointTrajectory :=
  {| jt_header := empty_header; joint_names := []; points := [] |}.

(** What one tick hands to the publishers. *)
Inductive OutgoingCmd : Type :=
| OutTrajectory (t : JointTrajectory)
| OutMultiArray (data : vec).

Record Published := {
  pub_status : option Z;
  pub_worst_case_stop_time : option double;
  pub_command : option OutgoingCmd;
}.

Inductive StatusCode : Type :=
| NO_WARNING
| DECELERATE_FOR_SINGULARITY
| HALT_FOR_SINGULARITY
| DECELERATE_FOR_COLLISION
| HALT_FOR_COLLISION
| JOINT_BOUND.

Definition status_to_int8 (s : StatusCode) : Z :=
  match s with
  | NO_WARNING => 0
  | DECELERATE_FOR_SINGULARITY => 1
  | HALT_FOR_SINGULARITY => 2
  | DECELERATE_FOR_COLLISION => 3
  | HALT_FOR_COLLISION => 4
  | JOINT_BOUND => 5
  end.

#[global] Instance StatusCode_eq_dec : EqDecision StatusCode.
Proof. solve_decision. Defined.

Record ServoParameters := {
  use_gazebo : bool;
  robot_link_command_frame : string;
  command_in_type : string;
  linear_scale : double;
  rotational_scale : double;
  joint_scale : double;
  publish_period : double;
  command_out_type : string;
  publish_joint_positions : bool;
  publish_joint_velocities : bool;
  publish_joint_accelerations : bool;
  planning_frame : string;
  incoming_command_timeout : double;
  num_outgoing_halt_msgs_to_publish : Z;
  lower_singularity_threshold : double;
  hard_stop_singularity_threshold : double;
  joint_limit_margin : double;
  low_pass_filter_coeff : double;
}.

(** [moveit::core::VariableBounds]. *)
Record VariableBounds := {
  min_position_ : double;
  max_position_ : double;
  position_bounded_ : bool;
  min_velocity_ : double;
  max_velocity_ : double;
  velocity_bounded_ : bool;
  min_acceleration_ : double;
  max_acceleration_ : double;
  acceleration_bounded_ : bool;
}.

(** [moveit::core::JointModel]: a name and the bounds of its variables. *)
Record JointModel := {
  jm_name : string;
  jm_variable_bounds : list VariableBounds;
}.

(** [moveit::core::RobotState]: the positions and velocities of the robot's
    variables, by name. *)
Record RobotState := {
  rs_position : gmap string double;
  rs_velocity : gmap string double;
}.

(** The kinematics adapter: the parts of the robot model, of the robot state
    and of Eigen that the servo loop calls and that live outside
    [servo_calcs.cpp]. *)
Class Kinematics := {
  getActiveJointModels : list JointModel;
  getJacobian : RobotState -> matrix;
  getGlobalLinkTransform : RobotState -> string -> Isometry3d;
  satisfiesPositionBounds : RobotState -> JointModel -> double -> bool;
  JacobiSVD : matrix -> SVD;
}.

(** [moveit_servo::LowPassFilter] ([low_pass_filter.h]). *)
Class LowPassFilter := {
  filter_state : Type;
  new_filter : double -> filter_state;
  filter : filter_state -> double -> filter_state * double;
  reset : filter_state -> double -> filter_state;
}.

(* ===================================================================== *)
(** ** The state of a [ServoCalcs] object                                 *)
(* ===================================================================== *)

Section ServoCalcs.

Context {kin : Kinematics} {lpf : LowPassFilter}.

(** The members of the class, with their names.  The members below
    [incoming_joint_state_] are the ones guarded by [latest_state_mutex_];
    shared pointers that may be null are options. *)
Record ServoCalcs := {
  parameters_ : ServoParameters;
  zero_velocity_count_ : Z;
  wait_for_servo_commands_ : bool;
  updated_filters_ : bool;
  have_nonzero_twist_stamped_ : bool;
  have_nonzero_joint_command_ : bool;
  have_nonzero_command_ : bool;
  twist_stamped_cmd_ : TwistStamped;
  joint_servo_cmd_ : JointJog;
  kinematic_state_ : RobotState;
  internal_joint_state_ : JointState;
  original_joint_state_ : JointState;
  joint_state_name_map_ : gmap string nat;
  position_filters_ : list filter_state;
  last_sent_command_ : JointTrajectory;
  status_ : StatusCode;
  stop_requested_ : bool;
  paused_ : bool;
  twist_command_is_stale_ : bool;
  joint_command_is_stale_ : bool;
  ok_to_publish_ : bool;
  collision_velocity_scale_ : double;
  delta_theta_ : vec;
  prev_joint_velocity_ : vec;
  num_joints_ : nat;
  drift_dimensions_ : list bool;
  control_dimensions_ : list bool;
  incoming_joint_state_ : option JointState;
  tf_moveit_to_robot_cmd_frame_ : Isometry3d;
  latest_twist_stamped_ : option TwistStamped;
  latest_joint_cmd_ : option JointJog;
  latest_twist_command_stamp_ : Z;
  latest_joint_command_stamp_ : Z;
  latest_nonzero_twist_stamped_ : bool;
  latest_nonzero_joint_cmd_ : bool;
}.

(** Assignment to one member.  [eta_ServoCalcs] rebuilds an object from its
    members; abstracting one projection out of it gives the setter. *)
Definition eta_ServoCalcs (s : ServoCalcs) : ServoCalcs :=
  Build_ServoCalcs
    (parameters_ s) (zero_velocity_count_ s) (wait_for_servo_commands_ s)
    (updated_filters_ s) (have_nonzero_twist_stamped_ s)
    (have_nonzero_joint_command_ s) (have_nonzero_command_ s)
    (twist_stamped_cmd_ s) (joint_servo_cmd_ s) (kinematic_state_ s)
    (internal_joint_state_ s) (original_joint_state_ s)
    (joint_state_name_map_ s) (position_filters_ s) (last_sent_command_ s)
    (status_ s) (stop_requested_ s) (paused_ s) (twist_command_is_stale_ s)
    (joint_command_is_stale_ s) (ok_to_publish_ s)
    (collision_velocity_scale_ s) (delta_theta_ s) (prev_joint_velocity_ s)
    (num_joints_ s) (drift_dimensions_ s) (control_dimensions_ s)
    (incoming_joint_state_ s) (tf_moveit_to_robot_cmd_frame_ s)
    (latest_twist_stamped_ s) (latest_joint_cmd_ s)
    (latest_twist_command_stamp_ s) (latest_joint_command_stamp_ s)
    (latest_nonzero_twist_stamped_ s) (latest_nonzero_joint_cmd_ s).

Ltac assign proj :=
  let e := eval cbv delta [eta_ServoCalcs] in eta_ServoCalcs in
  match eval pattern proj in e with
  | ?k _ => let r := eval cbv beta in (fun v s => k (fun _ => v) s) in exact r
  end.

Definition set_zero_velocity_count_ : Z -> ServoCalcs -> ServoCalcs :=
  ltac:(assign zero_velocity_count_).
Definition set_wait_for_servo_commands_ : bool -> ServoCalcs -> ServoCalcs :=
  ltac:(assign wait_for_servo_commands_).
Definition set_updated_filters_ : bool -> ServoCalcs -> ServoCalcs :=
  ltac:(assign updated_filters_).
Definition set_have_nonzero_twist_stamped_ : bool -> ServoCalcs -> ServoCalcs :=
  ltac:(assign have_nonzero_twist_stamped_).
Definition set_have_nonzero_joint_command_ : bool -> ServoCalcs -> ServoCalcs :=
  ltac:(assign have_nonzero_joint_command_).
Definition set_have_nonzero_command_ : bool -> ServoCalcs -> ServoCalcs :=
  ltac:(assign have_nonzero_command_).
Definition set_twist_stamped_cmd_ : TwistStamped -> ServoCalcs -> ServoCalcs :=
  ltac:(assign twist_stamped_cmd_).
Definition set_joint_servo_cmd_ : JointJog -> ServoCalcs -> ServoCalcs :=
  ltac:(assign joint_servo_cmd_).
Definition set_kinematic_state_ : RobotState -> ServoCalcs -> ServoCalcs :=
  ltac:(assign kinematic_state_).
Definition set_internal_joint_state_ : JointState -> ServoCalcs -> ServoCalcs :=
  ltac:(assign internal_joint_state_).
Definition set_original_joint_state_ : JointState -> ServoCalcs -> ServoCalcs :=
  ltac:(assign original_joint_state_).
Definition set_position_filters_ : list filter_state -> ServoCalcs -> ServoCalcs :=
  ltac:(assign position_filters_).
Definition set_last_sent_command_ : JointTrajectory -> ServoCalcs -> ServoCalcs :=
  ltac:(assign last_sent_command_).
Definition set_status_ : StatusCode -> ServoCalcs -> ServoCalcs :=
  ltac:(assign status_).
Definition set_stop_requested_ : bool -> ServoCalcs -> ServoCalcs :=
  ltac:(assign stop_requested_).
Definition set_paused_ : bool -> ServoCalcs -> ServoCalcs :=
  ltac:(assign paused_).
Definition set_twist_command_is_stale_ : bool -> ServoCalcs -> ServoCalcs :=
  ltac:(assign twist_command_is_stale_).
Definition set_joint_command_is_stale_ : bool -> ServoCalcs -> ServoCalcs :=
  ltac:(assign joint_command_is_stale_).
Definition set_ok_to_publish_ : bool -> ServoCalcs -> ServoCalcs :=
  ltac:(assign ok_to_publish_).
Definition set_collision_velocity_scale_ : double -> ServoCalcs -> ServoCalcs :=
  ltac:(assign collision_velocity_scale_).
Definition set_delta_theta_ : vec -> ServoCalcs -> ServoCalcs :=
  ltac:(assign delta_theta_).
Definition set_prev_joint_velocity_ : vec -> ServoCalcs -> ServoCalcs :=
  ltac:(assign prev_joint_velocity_).
Definition set_drift_dimensions_ : list bool -> ServoCalcs -> ServoCalcs :=
  ltac:(assign drift_dimensions_).
Definition set_control_dimensions_ : list bool -> ServoCalcs -> ServoCalcs :=
  ltac:(assign control_dimensions_).
Definition set_incoming_joint_state_ : option JointState -> ServoCalcs -> ServoCalcs :=
  ltac:(assign incoming_joint_state_).
Definition set_tf_moveit_to_robot_cmd_frame_ : Isometry3d -> ServoCalcs -> ServoCalcs :=
  ltac:(assign tf_moveit_to_robot_cmd_frame_).
Definition set_latest_twist_stamped_ : option TwistStamped -> ServoCalcs -> ServoCalcs :=
  ltac:(assign latest_twist_stamped_).
Definition set_latest_joint_cmd_ : option JointJog -> ServoCalcs -> ServoCalcs :=
  ltac:(assign latest_joint_cmd_).
Definition set_latest_twist_command_stamp_ : Z -> ServoCalcs -> ServoCalcs :=
  ltac:(assign latest_twist_command_stamp_).
Definition set_latest_joint_command_stamp_ : Z -> ServoCalcs -> ServoCalcs :=
  ltac:(assign latest_joint_command_stamp_).
Definition set_latest_nonzero_twist_stamped_ : bool -> ServoCalcs -> ServoCalcs :=
  ltac:(assign latest_nonzero_twist_stamped_).
Definition set_latest_nonzero_joint_cmd_ : bool -> ServoCalcs -> ServoCalcs :=
  ltac:(assign latest_nonzero_joint_cmd_).

End ServoCalcs.

(* ===================================================================== *)
(** ** The operations of [servo_calcs.cpp]                                *)
(* ===================================================================== *)

(** An operation that reads or writes a vector out of range, or follows a
    null pointer, has no defined result: it yields [None]. *)

Section Calcs.

Context {kin : Kinematics} {lpf : LowPassFilter}.

Definition streq (a b : string) : bool := String.eqb a b.

(** *** Zero detection *)

Definition isNonZero_twist (msg : TwistStamped) : bool :=
  let t := twist msg in
  (x (linear t) !=? d0)%D || (y (linear t) !=? d0)%D || (z (linear t) !=? d0)%D ||
  (x (angular t) !=? d0)%D || (y (angular t) !=? d0)%D || (z (angular t) !=? d0)%D.

Definition isNonZero_jog (msg : JointJog) : bool :=
  let all_zeros :=
    foldl (fun all_zeros delta => all_zeros && (delta ==? d0)%D) true
          (jj_velocities msg) in
  negb all_zeros.

(** *** The robot state *)

Definition setVariablePositions (names : list string) (vals : vec)
    (rs : RobotState) : RobotState :=
  {| rs_position :=
       foldl (fun m '(n, v) => <[n := v]> m) (rs_position rs) (zip names vals);
     rs_velocity := rs_velocity rs |}.

Definition setVariableVelocities (names : list string) (vals : vec)
    (rs : RobotState) : RobotState :=
  {| rs_position := rs_position rs;
     rs_velocity :=
       foldl (fun m '(n, v) => <[n := v]> m) (rs_velocity rs) (zip names vals) |}.

Definition setVariableValues (msg : JointState) (rs : RobotState) : RobotState :=
  let rs := match js_position msg with
            | [] => rs
            | _ => setVariablePositions (js_name msg) (js_position msg) rs
            end in
  match js_velocity msg with
  | [] => rs
  | _ => setVariableVelocities (js_name msg) (js_velocity msg) rs
  end.

Definition group_names : list string := jm_name <$> getActiveJointModels.

Definition copyJointGroupPositions (rs : RobotState) : vec :=
  (fun n => default d0 (rs_position rs !! n)) <$> group_names.

Definition setJointGroupPositions (theta : vec) (rs : RobotState) : RobotState :=
  setVariablePositions group_names theta rs.

Definition getJointVelocities (rs : RobotState) (joint : JointModel) : double :=
  default d0 (rs_velocity rs !! jm_name joint).

(** *** Time *)

(** [rclcpp::Duration::from_seconds]: whole nanoseconds, truncated. *)
Definition duration_from_seconds (d : double) : Z :=
  match d with
  | Fin q => Z.quot (Qnum q * 1000000000) (Z.pos (Qden q))
  | _ => 0
  end.

Definition INT_MAX : Z := 2147483647.

(** *** [updateJoints] *)

Definition updateJoints (s : ServoCalcs) : option (bool * ServoCalcs) :=
  incoming ← incoming_joint_state_ s;
  if (length (js_name incoming) <? num_joints_ s)%nat then Some (false, s)
  else
    pos ← foldl
      (fun acc '(m, nm) =>
         pos ← acc;
         match joint_state_name_map_ s !! nm with
         | None => Some pos
         | Some c =>
             p ← js_position incoming !! m;
             if (c <? length pos)%nat then Some (<[c := p]> pos) else None
         end)
      (Some (js_position (internal_joint_state_ s)))
      (imap pair (js_name incoming));
    let internal :=
      {| js_name := js_name (internal_joint_state_ s);
         js_position := pos;
         js_velocity := js_velocity (internal_joint_state_ s) |} in
    Some (true, set_original_joint_state_ internal
                  (set_internal_joint_state_ internal s)).

(** *** [calculateWorstCaseStopTime] *)

Definition find_joint_model (joint_name : string) : option JointModel :=
  List.find (fun jm => streq (jm_name jm) joint_name) getActiveJointModels.

(** One iteration of the loop over the incoming joint state; the pair is
    ([accel_limit], [worst_case_stop_time]), both declared before the
    loop. *)
Definition stop_time_step (incoming : JointState)
    (acc : option (double * double)) (jt_state_idx : nat)
    : option (double * double) :=
  '(accel_limit, worst_case_stop_time) ← acc;
  joint_name ← js_name incoming !! jt_state_idx;
  accel_limit ←
    match find_joint_model joint_name with
    | Some joint_model =>
        b ← head (jm_variable_bounds joint_model);
        Some (if acceleration_bounded_ b
              then dmin (fabs (min_acceleration_ b)) (fabs (max_acceleration_ b))
              else accel_limit)
    | None => Some accel_limit
    end;
  joint_velocity ← js_velocity incoming !! jt_state_idx;
  Some (accel_limit,
        dmax worst_case_stop_time (fabs (joint_velocity / accel_limit)%D)).

(** The value published on [worst_case_stop_time]. *)
Definition calculateWorstCaseStopTime (s : ServoCalcs) : option double :=
  incoming ← incoming_joint_state_ s;
  r ← foldl (stop_time_step incoming) (Some (d0, d0))
        (seq 0 (length (js_velocity incoming)));
  Some r.2.

(** *** Command validation *)

Definition checkValidCommand_jog (cmd : JointJog) : bool :=
  forallb (fun velocity => negb (isnan velocity)) (jj_velocities cmd).

Definition checkValidCommand_twist (p : ServoParameters) (cmd : TwistStamped) : bool :=
  let t := twist cmd in
  if isnan (x (linear t)) || isnan (y (linear t)) || isnan (z (linear t)) ||
     isnan (x (angular t)) || isnan (y (angular t)) || isnan (z (angular t))
  then false
  else if streq (command_in_type p) "unitless" then
    if (fabs (x (linear t)) >? d1)%D || (fabs (y (linear t)) >? d1)%D ||
       (fabs (z (linear t)) >? d1)%D || (fabs (x (angular t)) >? d1)%D ||
       (fabs (y (angular t)) >? d1)%D || (fabs (z (angular t)) >? d1)%D
    then false
    else true
  else true.

(** *** Scaling of the incoming commands *)

Definition scaleCartesianCommand (p : ServoParameters) (command : TwistStamped) : vec :=
  let t := twist command in
  let T := publish_period p in
  if streq (command_in_type p) "unitless" then
    [ (linear_scale p * T * x (linear t))%D;
      (linear_scale p * T * y (linear t))%D;
      (linear_scale p * T * z (linear t))%D;
      (rotational_scale p * T * x (angular t))%D;
      (rotational_scale p * T * y (angular t))%D;
      (rotational_scale p * T * z (angular t))%D ]
  else if streq (command_in_type p) "speed_units" then
    [ (x (linear t) * T)%D; (y (linear t) * T)%D; (z (linear t) * T)%D;
      (x (angular t) * T)%D; (y (angular t) * T)%D; (z (angular t) * T)%D ]
  else vzero 6.

Definition scaleJointCommand (s : ServoCalcs) (command : JointJog) : option vec :=
  let p := parameters_ s in
  foldl
    (fun acc '(m, nm) =>
       result ← acc;
       match joint_state_name_map_ s !! nm with
       | None => Some result
       | Some c =>
           if streq (command_in_type p) "unitless" then
             v ← jj_velocities command !! m;
             if (c <? length result)%nat
             then Some (<[c := (v * joint_scale p * publish_period p)%D]> result)
             else None
           else if streq (command_in_type p) "speed_units" then
             v ← jj_velocities command !! m;
             if (c <? length result)%nat
             then Some (<[c := (v * publish_period p)%D]> result)
             else None
           else Some result
       end)
    (Some (vzero (num_joints_ s)))
    (imap pair (jj_joint_names command)).

(** *** Control and drift dimensions *)

Definition dim (dims : list bool) (i : nat) : bool := default false (dims !! i).

Definition enforceControlDimensions (s : ServoCalcs) (command : TwistStamped)
    : TwistStamped :=
  let c := control_dimensions_ s in
  let t := twist command in
  let keep (i : nat) (a : double) := if dim c i then a else d0 in
  {| ts_header := ts_header command;
     twist :=
       {| linear := {| x := keep 0%nat (x (linear t));
                       y := keep 1%nat (y (linear t));
                       z := keep 2%nat (z (linear t)) |};
          angular := {| x := keep 3%nat (x (angular t));
                        y := keep 4%nat (y (angular t));
                        z := keep 5%nat (z (angular t)) |} |} |}.

(** The rows after [row_to_remove] move up by one and the last row is cut
    off; the same for the elements of [delta_x]. *)
Definition removeDimension (jacobian : matrix) (delta_x : vec)
    (row_to_remove : nat) : matrix * vec :=
  (delete row_to_remove jacobian, delete row_to_remove delta_x).

Definition removeDriftDimensions (s : ServoCalcs) (jacobian : matrix) (delta_x : vec)
    : matrix * vec :=
  foldl
    (fun '(m, dx) dimension =>
       if dim (drift_dimensions_ s) dimension && (1 <? mrows m)%nat
       then removeDimension m dx dimension
       else (m, dx))
    (jacobian, delta_x)
    (reverse (seq 0 (mrows jacobian))).

(** *** Singularity scaling *)

(** [singularValues()(0) / singularValues()(size - 1)]. *)
Definition condition_number (sv : vec) : option double :=
  first ← head sv;
  final ← last sv;
  Some (first / final)%D.

(** The scale and the status chosen from the condition number [ini_condition]
    and the dot product [dot] of the resolved direction with the command;
    [None] for the status means that [status_] is not written. *)
Definition singularity_scale (p : ServoParameters) (dot ini_condition : double)
    : double * option StatusCode :=
  if (dot >? d0)%D then
    if (ini_condition >? lower_singularity_threshold p)%D &&
       (ini_condition <? hard_stop_singularity_threshold p)%D
    then
      ((d1 - (ini_condition - lower_singularity_threshold p) /
              (hard_stop_singularity_threshold p - lower_singularity_threshold p))%D,
       Some DECELERATE_FOR_SINGULARITY)
    else if (ini_condition >? hard_stop_singularity_threshold p)%D
    then (d0, Some HALT_FOR_SINGULARITY)
    else (d1, None)
  else (d1, None).

(** The direction toward the singularity after the look-ahead, and the
    robot state the look-ahead leaves behind. *)
Definition resolve_direction (rs : RobotState) (num_dimensions : nat)
    (svd : SVD) (pseudo_inverse : matrix) : option (vec * double * RobotState) :=
  let vector_toward_singularity := mcol (matrixU svd) (Nat.pred num_dimensions) in
  ini_condition ← condition_number (singularValues svd);
  let scale := dZ 100 in
  let delta_x := vdiv vector_toward_singularity scale in
  let new_theta := copyJointGroupPositions rs in
  let new_theta := vadd new_theta (mat_vec pseudo_inverse delta_x) in
  let rs := setJointGroupPositions new_theta rs in
  let new_jacobian := getJacobian rs in
  let new_svd := JacobiSVD new_jacobian in
  new_condition ← condition_number (singularValues new_svd);
  let vector_toward_singularity :=
    if (ini_condition >=? new_condition)%D
    then vscale (dneg d1) vector_toward_singularity
    else vector_toward_singularity in
  Some (vector_toward_singularity, ini_condition, rs).

Definition velocityScalingFactorForSingularity (s : ServoCalcs)
    (commanded_velocity : vec) (svd : SVD) (pseudo_inverse : matrix)
    : option (double * ServoCalcs) :=
  '(vector_toward_singularity, ini_condition, rs) ←
    resolve_direction (kinematic_state_ s) (length commanded_velocity)
                      svd pseudo_inverse;
  let s := set_kinematic_state_ rs s in
  let dot := vdot vector_toward_singularity commanded_velocity in
  let '(velocity_scale, st) := singularity_scale (parameters_ s) dot ini_condition in
  let s := match st with Some c => set_status_ c s | None => s end in
  Some (velocity_scale, s).

(** *** Velocity and acceleration limits *)

(** The new values of [vel] and [delta]. *)
Definition enforceSingleVelAccelLimit (p : ServoParameters) (bound : VariableBounds)
    (vel prev_vel accel delta : double) : double * double :=
  let T := publish_period p in
  let delta :=
    if acceleration_bounded_ bound then
      let '(clip_acceleration, acceleration_limit) :=
        if (accel <? min_acceleration_ bound)%D then (true, min_acceleration_ bound)
        else if (accel >? max_acceleration_ bound)%D then (true, max_acceleration_ bound)
        else (false, d0) in
      if clip_acceleration then
        let relative_change := (((acceleration_limit * T + prev_vel) * T) / delta)%D in
        if (fabs relative_change <? d1)%D then (relative_change * delta)%D else delta
      else delta
    else delta in
  if velocity_bounded_ bound then
    let vel := (delta / T)%D in
    let '(clip_velocity, velocity_limit) :=
      if (vel <? min_velocity_ bound)%D then (true, min_velocity_ bound)
      else if (vel >? max_velocity_ bound)%D then (true, max_velocity_ bound)
      else (false, d0) in
    if clip_velocity then
      let relative_change := ((velocity_limit * T) / delta)%D in
      if (fabs relative_change <? d1)%D
      then ((relative_change * vel)%D, (relative_change * delta)%D)
      else (vel, delta)
    else (vel, delta)
  else (vel, delta).

(** The new [delta_theta]; [getVariableBounds(joint->getName())] is the
    bounds of the joint's first variable. *)
Definition enforceSRDFAccelVelLimits (p : ServoParameters) (prev_joint_velocity : vec)
    (delta_theta : vec) : option vec :=
  let T := publish_period p in
  let velocity := vdiv delta_theta T in
  let acceleration := vdiv (vsub velocity prev_joint_velocity) T in
  foldl
    (fun acc '(i, joint) =>
       delta_theta ← acc;
       bounds ← head (jm_variable_bounds joint);
       vel ← velocity !! i;
       prev_vel ← prev_joint_velocity !! i;
       accel ← acceleration !! i;
       delta ← delta_theta !! i;
       Some (<[i := (enforceSingleVelAccelLimit p bounds vel prev_vel accel delta).2]>
               delta_theta))
    (Some delta_theta)
    (imap pair getActiveJointModels).

(** *** Position limits *)

(** [joint_angle] starts at 0 and is read at the first index whose name is
    the joint's; that index is below [position.size()] in every state that
    [updateJoints] leaves, a shorter [position] reads as 0 here. *)
Definition joint_angle_of (original : JointState) (joint : JointModel) : double :=
  match list_find (fun n => n = jm_name joint) (js_name original) with
  | Some (c, _) => default d0 (js_position original !! c)
  | None => d0
  end.

(** [true] unless some joint is past its margin and moving further out. *)
Definition enforceSRDFPositionLimits (s : ServoCalcs) : bool :=
  let margin := joint_limit_margin (parameters_ s) in
  let halting :=
    existsb
      (fun joint =>
         let joint_angle := joint_angle_of (original_joint_state_ s) joint in
         if negb (satisfiesPositionBounds (kinematic_state_ s) joint (dneg margin))
         then
           match jm_variable_bounds joint with
           | [] => false
           | limit :: _ =>
               let v := getJointVelocities (kinematic_state_ s) joint in
               ((v <? d0)%D && (joint_angle <? min_position_ limit + margin)%D) ||
               ((v >? d0)%D && (joint_angle >? max_position_ limit - margin)%D)
           end
         else false)
      getActiveJointModels in
  negb halting.

(** *** Halting *)

Definition resize {A} (n : nat) (dflt : A) (l : list A) : list A :=
  take n (l ++ replicate n dflt).

Definition suddenHalt (s : ServoCalcs) (joint_trajectory : JointTrajectory)
    : option JointTrajectory :=
  let p := parameters_ s in
  let pts :=
    match points joint_trajectory with
    | [] => [ {| positions := vzero (num_joints_ s);
                 velocities := vzero (num_joints_ s);
                 accelerations := [];
                 time_from_start := d0 |} ]
    | pts => pts
    end in
  point ← head pts;
  point ← foldl
    (fun acc i =>
       pt ← acc;
       pos ← (if publish_joint_positions p then
                o ← js_position (original_joint_state_ s) !! i;
                if (i <? length (positions pt))%nat
                then Some (<[i := o]> (positions pt)) else None
              else Some (positions pt));
       vel ← (if publish_joint_velocities p then
                if (i <? length (velocities pt))%nat
                then Some (<[i := d0]> (velocities pt)) else None
              else Some (velocities pt));
       Some {| positions := pos; velocities := vel;
               accelerations := accelerations pt;
               time_from_start := time_from_start pt |})
    (Some point) (seq 0 (num_joints_ s));
  Some {| jt_header := jt_header joint_trajectory;
          joint_names := joint_names joint_trajectory;
          points := <[0%nat := point]> pts |}.

(** *** Filters *)

Definition resetLowPassFilters (joint_state : JointState) (s : ServoCalcs)
    : option ServoCalcs :=
  filters ← mapM (fun '(i, f) => p ← js_position joint_state !! i; Some (reset f p))
                 (imap pair (position_filters_ s));
  Some (set_updated_filters_ true (set_position_filters_ filters s)).

(** *** Joint update *)

(** The new joint state, previous velocities and filters; [None] inside
    [Some] is the size mismatch for which the source returns [false]. *)
Definition applyJointUpdate (p : ServoParameters) (filters : list filter_state)
    (delta_theta : vec) (joint_state : JointState) (previous_vel : vec)
    : option (option (JointState * vec * list filter_state)) :=
  if negb (length (js_position joint_state) =? length delta_theta)%nat ||
     negb (length (js_velocity joint_state) =? length (js_position joint_state))%nat ||
     negb (length previous_vel =? length (js_position joint_state))%nat
  then Some None
  else
    r ← foldl
      (fun acc i =>
         '(js, pv, fs) ← acc;
         pos ← js_position js !! i;
         d ← delta_theta !! i;
         f ← fs !! i;
         let '(f, filtered) := filter f (pos + d)%D in
         let v := (d / publish_period p)%D in
         Some ({| js_name := js_name js;
                  js_position := <[i := filtered]> (js_position js);
                  js_velocity := <[i := v]> (js_velocity js) |},
               <[i := v]> pv,
               <[i := f]> fs))
      (Some (joint_state, previous_vel, filters))
      (seq 0 (length (js_position joint_state)));
    Some (Some r).

(** *** Outgoing message *)

Definition composeJointTrajMessage (p : ServoParameters) (num_joints : nat)
    (now : Z) (joint_state : JointState) (joint_trajectory : JointTrajectory)
    : JointTrajectory :=
  let point :=
    {| time_from_start := publish_period p;
       positions := if publish_joint_positions p then js_position joint_state else [];
       velocities := if publish_joint_velocities p then js_velocity joint_state else [];
       accelerations := if publish_joint_accelerations p then vzero num_joints else [] |} in
  {| jt_header := {| stamp := now; frame_id := planning_frame p |};
     joint_names := js_name joint_state;
     points := points joint_trajectory ++ [point] |}.

Definition gazebo_redundant_message_count_ : Z := 30.

(** The points [2 .. count - 1] receive the copy of point [0]. *)
Definition insertRedundantPointsIntoTrajectory (p : ServoParameters)
    (joint_trajectory : JointTrajectory) (count : Z) : option JointTrajectory :=
  if count <? 2 then Some joint_trajectory
  else
    let pts := resize (Z.to_nat count) empty_point (points joint_trajectory) in
    point ← head pts;
    let pts :=
      foldl
        (fun pts i =>
           <[i := {| positions := positions point;
                     velocities := velocities point;
                     accelerations := accelerations point;
                     time_from_start := (dZ (Z.of_nat i) * publish_period p)%D |}]> pts)
        pts (seq 2 (Z.to_nat count - 2)) in
    Some {| jt_header := jt_header joint_trajectory;
            joint_names := joint_names joint_trajectory;
            points := pts |}.

(** *** [internalServoUpdate] *)

(** The status written by the collision scaling, if any. *)
Definition collision_status (collision_scale : double) : option StatusCode :=
  if (collision_scale >? d0)%D && (collision_scale <? d1)%D
  then Some DECELERATE_FOR_COLLISION
  else if (collision_scale ==? d0)%D then Some HALT_FOR_COLLISION
  else None.

(** The joint deltas after the limits and the collision scaling, as
    [internalServoUpdate] computes them before integrating. *)
Definition limited_delta_theta (p : ServoParameters) (prev_joint_velocity : vec)
    (collision_scale : double) (delta_theta : vec) : option vec :=
  delta_theta ← enforceSRDFAccelVelLimits p prev_joint_velocity delta_theta;
  Some (vscale collision_scale delta_theta).

(** [delta_theta] is the member [delta_theta_], passed by reference. *)
Definition internalServoUpdate (now : Z) (s : ServoCalcs)
    (joint_trajectory : JointTrajectory)
    : option (bool * JointTrajectory * ServoCalcs) :=
  let p := parameters_ s in
  let s := set_internal_joint_state_ (original_joint_state_ s) s in
  let collision_scale := collision_velocity_scale_ s in
  let s := match collision_status collision_scale with
           | Some c => set_status_ c s
           | None => s
           end in
  delta_theta ← limited_delta_theta p (prev_joint_velocity_ s) collision_scale
                                    (delta_theta_ s);
  let s := set_delta_theta_ delta_theta s in
  upd ← applyJointUpdate p (position_filters_ s) delta_theta
                         (internal_joint_state_ s) (prev_joint_velocity_ s);
  match upd with
  | None => Some (false, joint_trajectory, s)
  | Some (js, pv, fs) =>
      let s := set_position_filters_ fs
                 (set_prev_joint_velocity_ pv (set_internal_joint_state_ js s)) in
      let s := set_updated_filters_ true s in
      let joint_trajectory :=
        composeJointTrajMessage p (num_joints_ s) now (internal_joint_state_ s)
                                joint_trajectory in
      '(joint_trajectory, s) ←
        (if enforceSRDFPositionLimits s then Some (joint_trajectory, s)
         else
           jt ← suddenHalt s joint_trajectory;
           Some (jt, set_prev_joint_velocity_
                       (vzero (length (prev_joint_velocity_ s)))
                       (set_status_ JOINT_BOUND s)));
      joint_trajectory ←
        (if use_gazebo p
         then insertRedundantPointsIntoTrajectory p joint_trajectory
                                                  gazebo_redundant_message_count_
         else Some joint_trajectory);
      Some (true, joint_trajectory, s)
  end.

(** *** The Cartesian and the joint branch *)

Definition rotate (r : matrix) (v : Vector3) : Vector3 :=
  let w := mat_vec r [x v; y v; z v] in
  {| x := default d0 (w !! 0%nat);
     y := default d0 (w !! 1%nat);
     z := default d0 (w !! 2%nat) |}.

Definition transform_to_planning_frame (s : ServoCalcs) (cmd : TwistStamped)
    : TwistStamped :=
  let p := parameters_ s in
  let frame := frame_id (ts_header cmd) in
  if negb (streq frame (planning_frame p)) then
    let tf :=
      if streq frame "" || streq frame (robot_link_command_frame p)
      then tf_moveit_to_robot_cmd_frame_ s
      else iso_mul
             (iso_inverse (getGlobalLinkTransform (kinematic_state_ s) (planning_frame p)))
             (getGlobalLinkTransform (kinematic_state_ s) frame) in
    {| ts_header := {| stamp := stamp (ts_header cmd); frame_id := planning_frame p |};
       twist := {| linear := rotate (iso_linear tf) (linear (twist cmd));
                   angular := rotate (iso_linear tf) (angular (twist cmd)) |} |}
  else cmd.

(** [cmd] is the member [twist_stamped_cmd_], passed by reference. *)
Definition cartesianServoCalcs (now : Z) (s : ServoCalcs)
    (joint_trajectory : JointTrajectory)
    : option (bool * JointTrajectory * ServoCalcs) :=
  let p := parameters_ s in
  if negb (checkValidCommand_twist p (twist_stamped_cmd_ s))
  then Some (false, joint_trajectory, s)
  else
    let cmd := enforceControlDimensions s (twist_stamped_cmd_ s) in
    let cmd := transform_to_planning_frame s cmd in
    let s := set_twist_stamped_cmd_ cmd s in
    let delta_x := scaleCartesianCommand p cmd in
    let jacobian := getJacobian (kinematic_state_ s) in
    let '(jacobian, delta_x) := removeDriftDimensions s jacobian delta_x in
    let svd := JacobiSVD jacobian in
    let pseudo_inverse :=
      mat_mul (mat_mul (matrixV svd) (diag_inverse (singularValues svd)))
              (mtranspose (matrixU svd)) in
    let s := set_delta_theta_ (mat_vec pseudo_inverse delta_x) s in
    '(scale, s) ← velocityScalingFactorForSingularity s delta_x svd pseudo_inverse;
    let s := set_delta_theta_ (vscale scale (delta_theta_ s)) s in
    internalServoUpdate now s joint_trajectory.

Definition jointServoCalcs (now : Z) (s : ServoCalcs)
    (joint_trajectory : JointTrajectory)
    : option (bool * JointTrajectory * ServoCalcs) :=
  if negb (checkValidCommand_jog (joint_servo_cmd_ s))
  then Some (false, joint_trajectory, s)
  else
    delta_theta ← scaleJointCommand s (joint_servo_cmd_ s);
    let s := set_delta_theta_ delta_theta s in
    internalServoUpdate now s joint_trajectory.

(** *** The periodic tick, [run] *)

Inductive Branch : Type := CartesianBranch | JointBranch | NoMotionBranch.

(** The block under [latest_state_mutex_], the command-frame transform and
    the flags set before the pause check.  [now] is the reading of the
    node's clock for this tick. *)
Definition update_from_latest_state (now : Z) (s : ServoCalcs) : option ServoCalcs :=
  let p := parameters_ s in
  incoming ← incoming_joint_state_ s;
  let s := set_kinematic_state_ (setVariableValues incoming (kinematic_state_ s)) s in
  let s := match latest_twist_stamped_ s with
           | Some m => set_twist_stamped_cmd_ m s
           | None => s
           end in
  let s := match latest_joint_cmd_ s with
           | Some m => set_joint_servo_cmd_ m s
           | None => s
           end in
  let timeout := duration_from_seconds (incoming_command_timeout p) in
  let s := set_twist_command_is_stale_
             (now - latest_twist_command_stamp_ s >=? timeout) s in
  let s := set_joint_command_is_stale_
             (now - latest_joint_command_stamp_ s >=? timeout) s in
  let s := set_have_nonzero_twist_stamped_ (latest_nonzero_twist_stamped_ s) s in
  let s := set_have_nonzero_joint_command_ (latest_nonzero_joint_cmd_ s) s in
  let s := set_tf_moveit_to_robot_cmd_frame_
             (iso_mul
                (iso_inverse (getGlobalLinkTransform (kinematic_state_ s) (planning_frame p)))
                (getGlobalLinkTransform (kinematic_state_ s) (robot_link_command_frame p)))
             s in
  let s := set_have_nonzero_command_
             (have_nonzero_twist_stamped_ s || have_nonzero_joint_command_ s) s in
  Some (set_updated_filters_ false s).

Definition select_branch (s : ServoCalcs) : Branch :=
  if have_nonzero_twist_stamped_ s && negb (twist_command_is_stale_ s)
  then CartesianBranch
  else if have_nonzero_joint_command_ s && negb (joint_command_is_stale_ s)
  then JointBranch
  else NoMotionBranch.

(** The decision whether to publish: taken on the counter before it is
    advanced. *)
Definition decide_ok_to_publish (s : ServoCalcs) : bool :=
  if negb (have_nonzero_command_ s) &&
     negb (num_outgoing_halt_msgs_to_publish (parameters_ s) =? 0) &&
     (zero_velocity_count_ s >? num_outgoing_halt_msgs_to_publish (parameters_ s))
  then false else true.

Definition next_zero_velocity_count (s : ServoCalcs) : Z :=
  if negb (have_nonzero_command_ s) then
    if zero_velocity_count_ s <? INT_MAX
    then zero_velocity_count_ s + 1 else zero_velocity_count_ s
  else 0.

(** The tick from "If we should halt" to its end. *)
Definition halt_and_publish (now : Z) (s : ServoCalcs)
    (joint_trajectory : JointTrajectory)
    : option (ServoCalcs * option OutgoingCmd) :=
  let p := parameters_ s in
  '(joint_trajectory, s) ←
    (if negb (have_nonzero_command_ s) then
       jt ← suddenHalt s joint_trajectory;
       Some (jt, set_have_nonzero_joint_command_ false
                   (set_have_nonzero_twist_stamped_ false s))
     else Some (joint_trajectory, s));
  let s := set_ok_to_publish_ (decide_ok_to_publish s) s in
  let s := set_zero_velocity_count_ (next_zero_velocity_count s) s in
  let '(s, out) :=
    if ok_to_publish_ s then
      if streq (command_out_type p) "trajectory_msgs/JointTrajectory" then
        let jt := {| jt_header := {| stamp := now;
                                     frame_id := frame_id (jt_header joint_trajectory) |};
                     joint_names := joint_names joint_trajectory;
                     points := points joint_trajectory |} in
        (set_last_sent_command_ jt s, Some (OutTrajectory jt))
      else if streq (command_out_type p) "std_msgs/Float64MultiArray" then
        let data :=
          match points joint_trajectory with
          | pt :: _ =>
              if publish_joint_positions p then positions pt
              else if publish_joint_velocities p then velocities pt
              else []
          | [] => []
          end in
        (set_last_sent_command_ joint_trajectory s, Some (OutMultiArray data))
      else (s, None)
    else (s, None) in
  s ← (if updated_filters_ s then Some s
       else resetLowPassFilters (original_joint_state_ s) s);
  Some (s, out).

(** One call of the timer callback.  The loop that waits for a joint state
    with enough joints ends the tick when [updateJoints] fails: nothing but
    the status has been published by then. *)
Definition run (now : Z) (s : ServoCalcs) : option (ServoCalcs * Published) :=
  let status_msg := status_to_int8 (status_ s) in
  let s := set_status_ NO_WARNING s in
  '(ok, s) ← updateJoints s;
  if negb ok
  then Some (s, {| pub_status := Some status_msg;
                   pub_worst_case_stop_time := None;
                   pub_command := None |})
  else
    worst ← calculateWorstCaseStopTime s;
    let published cmd := {| pub_status := Some status_msg;
                            pub_worst_case_stop_time := Some worst;
                            pub_command := cmd |} in
    s ← update_from_latest_state now s;
    if wait_for_servo_commands_ s || paused_ s then
      s ← resetLowPassFilters (original_joint_state_ s) s;
      let s := set_wait_for_servo_commands_
                 ((stamp (ts_header (twist_stamped_cmd_ s)) =? 0) &&
                  (stamp (jj_header (joint_servo_cmd_ s)) =? 0)) s in
      Some (s, published None)
    else
      '(ok, joint_trajectory, s) ←
        match select_branch s with
        | CartesianBranch => cartesianServoCalcs now s empty_trajectory
        | JointBranch => jointServoCalcs now s empty_trajectory
        | NoMotionBranch => Some (true, last_sent_command_ s, s)
        end;
      if negb ok then
        s ← resetLowPassFilters (original_joint_state_ s) s;
        Some (s, published None)
      else
        '(s, out) ← halt_and_publish now s joint_trajectory;
        Some (s, published out).

(** *** Callbacks and services *)

Definition jointStateCB (msg : JointState) (s : ServoCalcs) : ServoCalcs :=
  set_incoming_joint_state_ (Some msg) s.

Definition twistStampedCB (msg : TwistStamped) (s : ServoCalcs) : ServoCalcs :=
  let s := set_latest_twist_stamped_ (Some msg) s in
  let s := set_latest_nonzero_twist_stamped_ (isNonZero_twist msg) s in
  if negb (stamp (ts_header msg) =? 0)
  then set_latest_twist_command_stamp_ (stamp (ts_header msg)) s
  else s.

Definition jointCmdCB (msg : JointJog) (s : ServoCalcs) : ServoCalcs :=
  let s := set_latest_joint_cmd_ (Some msg) s in
  let s := set_latest_nonzero_joint_cmd_ (isNonZero_jog msg) s in
  if negb (stamp (jj_header msg) =? 0)
  then set_latest_joint_command_stamp_ (stamp (jj_header msg)) s
  else s.

Definition collisionVelocityScaleCB (data : double) (s : ServoCalcs) : ServoCalcs :=
  set_collision_velocity_scale_ data s.

Definition changeDriftDimensions (req : list bool) (s : ServoCalcs) : ServoCalcs :=
  set_drift_dimensions_ ((fun i => dim req i) <$> seq 0 6) s.

Definition changeControlDimensions (req : list bool) (s : ServoCalcs) : ServoCalcs :=
  set_control_dimensions_ ((fun i => dim req i) <$> seq 0 6) s.

Definition setPaused (paused : bool) (s : ServoCalcs) : ServoCalcs :=
  set_paused_ paused s.

Definition stop (s : ServoCalcs) : ServoCalcs := set_stop_requested_ true s.

(** *** Construction and start *)

(** The constructor: the members with their in-class initialisers, the
    joint names of the group, their index map and one filter per joint.
    [default_state] is the robot state after [setToDefaultValues];
    [tf0] stands for the transform member, which the constructor leaves
    unset.  [last_sent_command_] is a null pointer until [start]; [run] is
    only called by the timer that [start] creates. *)
Definition ServoCalcs_new (parameters : ServoParameters) (default_state : RobotState)
    (tf0 : Isometry3d) : ServoCalcs :=
  let names := group_names in
  let num_joints := length names in
  {| parameters_ := parameters;
     zero_velocity_count_ := 0;
     wait_for_servo_commands_ := true;
     updated_filters_ := false;
     have_nonzero_twist_stamped_ := false;
     have_nonzero_joint_command_ := false;
     have_nonzero_command_ := false;
     twist_stamped_cmd_ :=
       {| ts_header := empty_header;
          twist := {| linear := {| x := d0; y := d0; z := d0 |};
                      angular := {| x := d0; y := d0; z := d0 |} |} |};
     joint_servo_cmd_ :=
       {| jj_header := empty_header; jj_joint_names := []; jj_velocities := [] |};
     kinematic_state_ := default_state;
     internal_joint_state_ :=
       {| js_name := names;
          js_position := vzero num_joints;
          js_velocity := vzero num_joints |};
     original_joint_state_ := {| js_name := []; js_position := []; js_velocity := [] |};
     joint_state_name_map_ :=
       foldl (fun m '(i, n) => <[n := i]> m) ∅ (imap pair names);
     position_filters_ := replicate num_joints (new_filter (low_pass_filter_coeff parameters));
     last_sent_command_ := empty_trajectory;
     status_ := NO_WARNING;
     stop_requested_ := false;
     paused_ := false;
     twist_command_is_stale_ := false;
     joint_command_is_stale_ := false;
     ok_to_publish_ := false;
     collision_velocity_scale_ := d1;
     delta_theta_ := [];
     prev_joint_velocity_ := vzero (length getActiveJointModels);
     num_joints_ := num_joints;
     drift_dimensions_ := replicate 6 false;
     control_dimensions_ := replicate 6 true;
     incoming_joint_state_ := None;
     tf_moveit_to_robot_cmd_frame_ := tf0;
     latest_twist_stamped_ := None;
     latest_joint_cmd_ := None;
     latest_twist_command_stamp_ := 0;
     latest_joint_command_stamp_ := 0;
     latest_nonzero_twist_stamped_ := false;
     latest_nonzero_joint_cmd_ := false |}.

(** [start]: refuses while no joint state has arrived; otherwise reads the
    joints (the result of [updateJoints] is dropped) and prepares the
    command to repeat when nothing else is to be sent. *)
Definition start (now : Z) (s : ServoCalcs) : option (bool * ServoCalcs) :=
  match incoming_joint_state_ s with
  | None => Some (false, s)
  | Some _ =>
      '(_, s) ← updateJoints s;
      let p := parameters_ s in
      let point :=
        {| time_from_start := publish_period p;
           positions := if publish_joint_positions p
                        then js_position (internal_joint_state_ s) else [];
           velocities := if publish_joint_velocities p
                         then vzero (num_joints_ s) else [];
           accelerations := if publish_joint_accelerations p
                            then vzero (num_joints_ s) else [] |} in
      let initial_joint_trajectory :=
        {| jt_header := {| stamp := now; frame_id := planning_frame p |};
           joint_names := js_name (internal_joint_state_ s);
           points := [point] |} in
      Some (true, set_stop_requested_ false
                    (set_last_sent_command_ initial_joint_trajectory s))
  end.

Definition getLatestJointState (s : ServoCalcs) : option JointState :=
  incoming_joint_state_ s.

End Calcs.

(* ===================================================================== *)
(** ** Example robots                                                     *)
(* ===================================================================== *)

(** Small instances on which the operations can be run: robots whose
    Jacobian is diagonal, with the entry [gain + theta] for each joint, and
    a filter that passes its input through. *)

Definition free_bounds : VariableBounds :=
  {| min_position_ := d0; max_position_ := d0; position_bounded_ := false;
     min_velocity_ := d0; max_velocity_ := d0; velocity_bounded_ := false;
     min_acceleration_ := d0; max_acceleration_ := d0;
     acceleration_bounded_ := false |}.

(** Velocity within [-v, v], acceleration within [-a, a]. *)
Definition symmetric_bounds (v a : Z) : VariableBounds :=
  {| min_position_ := d0; max_position_ := d0; position_bounded_ := false;
     min_velocity_ := dZ (- v); max_velocity_ := dZ v; velocity_bounded_ := true;
     min_acceleration_ := dZ (- a); max_acceleration_ := dZ a;
     acceleration_bounded_ := true |}.

Definition identity_isometry : Isometry3d :=
  {| iso_linear := [[d1; d0; d0]; [d0; d1; d0]; [d0; d0; d1]];
     iso_translation := [d0; d0; d0] |}.

Definition diagonal (d : vec) : matrix :=
  imap (fun i a => <[i := a]> (vzero (length d))) d.

Definition diagonal_of (m : matrix) : vec :=
  imap (fun i row => default d0 (row !! i)) m.

(** The decomposition of a diagonal matrix whose entries are positive and
    decreasing: [U] and [V] are the identity. *)
Definition example_kinematics (joints : list JointModel) (gains : vec) : Kinematics :=
  {| getActiveJointModels := joints;
     getJacobian rs :=
       diagonal (zip_with (fun g joint =>
                             (g + default d0 (rs_position rs !! jm_name joint))%D)
                          gains joints);
     getGlobalLinkTransform _ _ := identity_isometry;
     satisfiesPositionBounds _ _ _ := true;
     JacobiSVD m :=
       {| singularValues := fabs <$> diagonal_of m;
          matrixU := diagonal (replicate (length m) d1);
          matrixV := diagonal (replicate (length m) d1) |} |}.

Definition passthrough_filter : LowPassFilter :=
  {| filter_state := double;
     new_filter _ := d0;
     filter _ x := (x, x);
     reset _ x := x |}.

Definition one_joint : list JointModel :=
  [ {| jm_name := "j1"; jm_variable_bounds := [free_bounds] |} ].

Definition two_joints : list JointModel :=
  [ {| jm_name := "j1"; jm_variable_bounds := [symmetric_bounds 10 2] |};
    {| jm_name := "j2"; jm_variable_bounds := [free_bounds] |} ].

Definition example_parameters : ServoParameters :=
  {| use_gazebo := false;
     robot_link_command_frame := "tool";
     command_in_type := "speed_units";
     linear_scale := d1;
     rotational_scale := d1;
     joint_scale := d1;
     publish_period := d1;
     command_out_type := "trajectory_msgs/JointTrajectory";
     publish_joint_positions := true;
     publish_joint_velocities := true;
     publish_joint_accelerations := false;
     planning_frame := "base";
     incoming_command_timeout := d1;
     num_outgoing_halt_msgs_to_publish := 2;
     lower_singularity_threshold := dZ 17;
     hard_stop_singularity_threshold := dZ 30;
     joint_limit_margin := d0;
     low_pass_filter_coeff := dZ 2 |}.

Definition empty_robot_state : RobotState :=
  {| rs_position := ∅; rs_velocity := ∅ |}.

(** What can happen to a servo object: a message on one of its topics, a
    call of [start] or [setPaused], or the timer firing at a clock
    reading. *)
Inductive Event : Type :=
| JointStateMsg (msg : JointState)
| TwistMsg (msg : TwistStamped)
| JogMsg (msg : JointJog)
| CollisionScaleMsg (data : double)
| Start (now : Z)
| Pause (paused : bool)
| Tick (now : Z).

Section Scenario.

Context {kin : Kinematics} {lpf : LowPassFilter}.

Definition handle (e : Event) (s : ServoCalcs) : option (ServoCalcs * list Published) :=
  match e with
  | JointStateMsg msg => Some (jointStateCB msg s, [])
  | TwistMsg msg => Some (twistStampedCB msg s, [])
  | JogMsg msg => Some (jointCmdCB msg s, [])
  | CollisionScaleMsg data => Some (collisionVelocityScaleCB data s, [])
  | Start now => '(_, s) ← start now s; Some (s, [])
  | Pause paused => Some (setPaused paused s, [])
  | Tick now => '(s, out) ← run now s; Some (s, [out])
  end.

(** The events in order; the result lists what the ticks published. *)
Fixpoint execute (events : list Event) (s : ServoCalcs)
    : option (ServoCalcs * list Published) :=
  match events with
  | [] => Some (s, [])
  | e :: events =>
      '(s, out) ← handle e s;
      '(s, outs) ← execute events s;
      Some (s, out ++ outs)
  end.

End Scenario.

(** The commands among what was published. *)
Definition commands (out : list Published) : list (option OutgoingCmd) :=
  pub_command <$> out.

Definition twist_of (stamp : Z) (lx ly lz ax ay az : double) : TwistStamped :=
  {| ts_header := {| stamp := stamp; frame_id := "base" |};
     twist := {| linear := {| x := lx; y := ly; z := lz |};
                 angular := {| x := ax; y := ay; z := az |} |} |}.

Definition jog_of (stamp : Z) (names : list string) (velocities : vec) : JointJog :=
  {| jj_header := {| stamp := stamp; frame_id := "base" |};
     jj_joint_names := names;
     jj_velocities := velocities |}.

(** A robot with two joints and the Jacobian [diag (30, 1 + theta2)]: its
    condition number is [30 / (1 + theta2)], and lowering [theta2] leads to
    the singularity at [theta2 = -1]. *)
Definition planar_kinematics : Kinematics :=
  example_kinematics two_joints [dZ 30; d1].

Definition planar_joint_state : JointState :=
  {| js_name := ["j1"; "j2"]; js_position := [d0; d0]; js_velocity := [d0; d0] |}.

Definition planar_servo : @ServoCalcs passthrough_filter :=
  ServoCalcs_new (kin := planar_kinematics) example_parameters
    (setVariableValues planar_joint_state empty_robot_state) identity_isometry.

Definition planar_svd : SVD :=
  JacobiSVD (Kinematics := planar_kinematics)
    (getJacobian (Kinematics := planar_kinematics) (kinematic_state_ planar_servo)).

Definition planar_pseudo_inverse : matrix :=
  mat_mul (mat_mul (matrixV planar_svd) (diag_inverse (singularValues planar_svd)))
          (mtranspose (matrixU planar_svd)).

(** A robot with one joint and the Jacobian [1 + theta]. *)
Definition single_kinematics : Kinematics := example_kinematics one_joint [d1].

Definition single_joint_state : JointState :=
  {| js_name := ["j1"]; js_position := [dZ 3]; js_velocity := [d0] |}.

Definition single_servo (p : ServoParameters) : @ServoCalcs passthrough_filter :=
  ServoCalcs_new (kin := single_kinematics) p empty_robot_state identity_isometry.

Definition gazebo_parameters : ServoParameters :=
  {| use_gazebo := true;
     robot_link_command_frame := "tool";
     command_in_type := "speed_units";
     linear_scale := d1;
     rotational_scale := d1;
     joint_scale := d1;
     publish_period := d1;
     command_out_type := "trajectory_msgs/JointTrajectory";
     publish_joint_positions := true;
     publish_joint_velocities := true;
     publish_joint_accelerations := false;
     planning_frame := "base";
     incoming_command_timeout := d1;
     num_outgoing_halt_msgs_to_publish := 2;
     lower_singularity_threshold := dZ 17;
     hard_stop_singularity_threshold := dZ 30;
     joint_limit_margin := d0;
     low_pass_filter_coeff := dZ 2 |}.

(** The points of the first command among what was published. *)
Definition first_command_points (out : list Published) : list JointTrajectoryPoint :=
  match omap pub_command out with
  | OutTrajectory t :: _ => points t
  | _ => []
  end.

(** Joint states of the planar robot in which only the joint without an
    acceleration bound moves. *)
Definition planar_moving_j2 : JointState :=
  {| js_name := ["j1"; "j2"]; js_position := [d0; d0]; js_velocity := [d0; dZ 4] |}.

Definition planar_moving_j2_first : JointState :=
  {| js_name := ["j2"; "j1"]; js_position := [d0; d0]; js_velocity := [dZ 4; d0] |}.

(** The worst-case stop times among what was published. *)
Definition stop_times (out : list Published) : list (option double) :=
  pub_worst_case_stop_time <$> out.

(** The six components of a twist command. *)
Definition twist_components (cmd : TwistStamped) : vec :=
  let t := twist cmd in
  [ x (linear t); y (linear t); z (linear t);
    x (angular t); y (angular t); z (angular t) ].

(** A twist command with a NaN, and one with an infinite component. *)
Definition nan_twist : TwistStamped := twist_of 1 NaN d0 d0 d0 d0 d0.
Definition infinite_twist : TwistStamped := twist_of 1 PInf d0 d0 d0 d0 d0.

(** The one-joint servo after its first tick has seen [cmd]. *)
Definition single_servo_with_twist (cmd : TwistStamped)
    : @ServoCalcs passthrough_filter :=
  let s := single_servo example_parameters in
  default s
    (fst <$> execute (kin := single_kinematics)
               [JointStateMsg single_joint_state; Start 0; TwistMsg cmd; Tick 1] s).

(** Which ticks published a command. *)
Definition published_command (out : list Published) : list bool :=
  (fun c => match pub_command c with Some _ => true | None => false end) <$> out.

(** The one-joint servo, started, with a stamped twist command; the first
    tick ends the wait for commands. *)
Definition ticks_after_twist (cmd : TwistStamped) (ticks : list Z) : list Event :=
  [JointStateMsg single_joint_state; Start 0; TwistMsg cmd; Tick 1] ++ (Tick <$> ticks).

Definition zero_twist : TwistStamped := twist_of 1 d0 d0 d0 d0 d0 d0.
Definition unit_twist : TwistStamped := twist_of 1 d1 d0 d0 d0 d0 d0.

(** The velocities of the first point of the last command published. *)
Definition last_command_velocities (out : list Published) : vec :=
  match reverse (omap pub_command out) with
  | OutTrajectory t :: _ => from_option velocities [] (head (points t))
  | _ => []
  end.

(** The one-joint servo, started, with a jog command of velocity 1, told
    the collision scale [c] before its second tick. *)
Definition ticks_with_collision_scale (c : double) : list Event :=
  [ JointStateMsg single_joint_state; Start 0; JogMsg (jog_of 1 ["j1"] [d1]);
    Tick 1; CollisionScaleMsg c; Tick 2 ].




(** The halt command of the one-joint robot, which rests at position 3. *)
Definition single_halt_command (now : Z) : OutgoingCmd :=
  OutTrajectory
    {| jt_header := {| stamp := now; frame_id := "base" |};
       joint_names := ["j1"];
       points := [ {| positions := [dZ 3]; velocities := [d0];
                      accelerations := []; time_from_start := d1 |} ] |}.

(** The command that moves the one-joint robot from 3 at velocity 1,
    published at time 2. *)
Definition single_move_command : OutgoingCmd :=
  OutTrajectory
    {| jt_header := {| stamp := 2; frame_id := "base" |};
       joint_names := ["j1"];
       points := [ {| positions := [dZ 4]; velocities := [d1];
                      accelerations := []; time_from_start := d1 |} ] |}.

(** The one-joint robot is jogged at velocity 1 for one tick after the
    wait, then receives an all-zero jog command. *)
Definition move_then_zero_commands : list Event :=
  [ JointStateMsg single_joint_state; Start 0;
    JogMsg (jog_of 1 ["j1"] [d1]); Tick 1; Tick 2;
    JogMsg (jog_of 3 ["j1"] [d0]); Tick 3; Tick 4; Tick 5; Tick 6; Tick 7 ].

(** The one-joint servo after its first tick has seen the jog command
    [cmd]. *)
Definition single_servo_with_jog (cmd : JointJog) : @ServoCalcs passthrough_filter :=
  let s := single_servo example_parameters in
  default s
    (fst <$> execute (kin := single_kinematics)
               [JointStateMsg single_joint_state; Start 0; JogMsg cmd; Tick 1] s).

Definition nothing_published : Published :=
  {| pub_status := None; pub_worst_case_stop_time := None; pub_command := None |}.

(** A stop time that is a number and not below zero. *)
Definition proper_stop_time (t : double) : Prop :=
  isnan t = false /\ (d0 <=? t)%D = true.

(* ===================================================================== *)
(** ** Properties: doubles                                                *)
(* ===================================================================== *)

Lemma Qltb_true (a b : Q) : Qltb a b = true <-> (a < b)%Q.
Proof.
  unfold Qltb. rewrite negb_true_iff, <- not_true_iff_false, Qle_bool_iff.
  split; [apply Qnot_le_lt | apply Qlt_not_le].
Qed.

Lemma Qltb_false (a b : Q) : Qltb a b = false <-> (b <= a)%Q.
Proof. unfold Qltb. rewrite negb_false_iff. apply Qle_bool_iff. Qed.

Lemma Qeq_bool_false (a b : Q) : Qeq_bool a b = false <-> ~ (a == b)%Q.
Proof.
  rewrite <- not_true_iff_false, Qeq_bool_iff. reflexivity.
Qed.

Lemma deqb_not_dltb (a b : double) :
  deqb a b = true -> dltb a b = false /\ dltb b a = false.
Proof.
  destruct a as [p| | |], b as [q| | |]; simpl; try discriminate; auto.
  intros H. apply Qeq_bool_iff in H.
  split; apply Qltb_false; rewrite H; apply Qle_refl.
Qed.

(* ===================================================================== *)
(** ** Properties: the singularity scale                                  *)
(* ===================================================================== *)

(** C1, at the hard threshold.  When the motion is toward the singularity
    and the condition number equals [hard_stop_singularity_threshold], the
    scale chosen is 1 and the status is not written: both tests against
    the hard threshold are strict. *)
Theorem singularity_scale_at_hard_threshold
    (p : ServoParameters) (dot kappa : double) :
  dlt d0 dot ->
  deq kappa (hard_stop_singularity_threshold p) ->
  singularity_scale p dot kappa = (d1, None).
Proof.
  intros Hdot Heq. unfold singularity_scale, dgtb.
  apply deqb_not_dltb in Heq as [H1 H2].
  rewrite Hdot, H1, H2, andb_false_r. reflexivity.
Qed.

Lemma singularity_scale_at_hard_threshold_witness :
  singularity_scale example_parameters d1 (dZ 30) = (d1, None).
Proof.
  apply singularity_scale_at_hard_threshold; reflexivity.
Defined.

(** The scale at the hard threshold, through the whole analyzer: on the
    planar robot at [theta = 0] the condition number is 30, the hard
    threshold of [example_parameters]; the command [(0, -1)] points toward
    the singularity; the scale returned is 1 and the status stays
    [NO_WARNING]. *)
Lemma halt_missed_at_hard_threshold :
  option_map (fun r => ((r.1.2 ==? hard_stop_singularity_threshold example_parameters)%D,
                        (vdot r.1.1 [d0; dneg d1] >? d0)%D))
    (resolve_direction (kin := planar_kinematics) (kinematic_state_ planar_servo) 2
       planar_svd planar_pseudo_inverse) = Some (true, true) /\
  option_map (fun r => (r.1, status_ r.2))
    (velocityScalingFactorForSingularity (kin := planar_kinematics) planar_servo
       [d0; dneg d1] planar_svd planar_pseudo_inverse) = Some (d1, NO_WARNING).
Proof. split; vm_compute; reflexivity. Qed.

(* ===================================================================== *)
(** ** Properties: the redundant points for Gazebo                        *)
(* ===================================================================== *)

(** C9.  From a trajectory that holds the one computed point,
    [insertRedundantPointsIntoTrajectory] with the count 30 makes 30 points:
    point 0 is the computed point with its own time, point 1 is a
    default-constructed point, and the points 2 to 29 are copies of the
    computed point with the time [i * publish_period]. *)
Theorem insertRedundantPoints_leaves_second_point_default
    (p : ServoParameters) (hdr : Header) (names : list string)
    (pt : JointTrajectoryPoint) :
  insertRedundantPointsIntoTrajectory p
    {| jt_header := hdr; joint_names := names; points := [pt] |}
    gazebo_redundant_message_count_ =
  Some {| jt_header := hdr; joint_names := names;
          points :=
            pt :: empty_point ::
            ((fun i => {| positions := positions pt;
                          velocities := velocities pt;
                          accelerations := accelerations pt;
                          time_from_start := (dZ (Z.of_nat i) * publish_period p)%D |})
               <$> seq 2 28) |}.
Proof. reflexivity. Qed.

(** The same through a whole tick: with [use_gazebo], a jog command for
    the one-joint robot is published as 30 points of which the second has
    no positions and no velocities. *)
Lemma gazebo_second_point_is_empty :
  option_map (fun r => let pts := first_command_points r.2 in
                       (length pts, positions <$> pts !! 0%nat, pts !! 1%nat))
    (execute (kin := single_kinematics)
       [ JointStateMsg single_joint_state; Start 0;
         JogMsg (jog_of 1 ["j1"] [d1]); Tick 1; Tick 2 ]
       (single_servo gazebo_parameters))
  = Some (30%nat, Some [dZ 4], Some empty_point).
Proof. vm_compute. reflexivity. Qed.

(* ===================================================================== *)
(** ** Properties: branch selection                                       *)
(* ===================================================================== *)

Section BranchSelection.

Context {kin : Kinematics} {lpf : LowPassFilter}.

Lemma isNonZero_jog_empty (hdr : Header) (names : list string) :
  isNonZero_jog {| jj_header := hdr; jj_joint_names := names; jj_velocities := [] |}
  = false.
Proof. reflexivity. Qed.

(** The flags that [update_from_latest_state] copies from the latest
    messages. *)
Lemma update_from_latest_state_flags (now : Z) (s s' : ServoCalcs) :
  update_from_latest_state now s = Some s' ->
  have_nonzero_twist_stamped_ s' = latest_nonzero_twist_stamped_ s /\
  have_nonzero_joint_command_ s' = latest_nonzero_joint_cmd_ s /\
  have_nonzero_command_ s' =
    latest_nonzero_twist_stamped_ s || latest_nonzero_joint_cmd_ s.
Proof.
  unfold update_from_latest_state. intros H.
  destruct (incoming_joint_state_ s); simpl in H; [|discriminate].
  destruct (latest_twist_stamped_ s); simpl in H;
    destruct (latest_joint_cmd_ s); simpl in H;
    injection H as <-; repeat split; reflexivity.
Qed.

End BranchSelection.


(* ===================================================================== *)
(** ** Properties: the worst-case stop time                               *)
(* ===================================================================== *)

(** C7.  A joint without an acceleration bound is not skipped: its
    velocity is divided by the limit left over from the joint before it.
    On the planar robot ([j1] bounded by 2, [j2] unbounded) with [j1] at
    rest and [j2] at velocity 4, the tick publishes the stop time 2; when
    the joint state lists [j2] first, the limit is still the initial 0 and
    the tick publishes infinity. *)
Theorem stop_time_counts_joint_without_bound :
  option_map (fun r => stop_times r.2)
    (execute (kin := planar_kinematics)
       [JointStateMsg planar_moving_j2; Start 0; Tick 1] planar_servo)
  = Some [Some (dZ 4 / dZ 2)%D] /\
  option_map (fun r => stop_times r.2)
    (execute (kin := planar_kinematics)
       [JointStateMsg planar_moving_j2_first; Start 0; Tick 1] planar_servo)
  = Some [Some PInf].
Proof. split; vm_compute; reflexivity. Qed.

(* ===================================================================== *)
(** ** Properties: the singularity probe                                  *)
(* ===================================================================== *)

Section SingularityProbe.

Context {kin : Kinematics} {lpf : LowPassFilter}.

(** C6.  The analyzer leaves the probe in the kinematic state: on return
    the joint positions of the group are the ones on entry plus
    [pseudo_inverse * (u_last / 100)].  Apart from the kinematic state and
    the status, the object is unchanged. *)
Theorem singularity_probe_is_not_undone
    (s s' : ServoCalcs) (commanded_velocity : vec) (svd : SVD)
    (pseudo_inverse : matrix) (velocity_scale : double) :
  velocityScalingFactorForSingularity s commanded_velocity svd pseudo_inverse
    = Some (velocity_scale, s') ->
  let u_last := mcol (matrixU svd) (Nat.pred (length commanded_velocity)) in
  let probed :=
    setJointGroupPositions
      (vadd (copyJointGroupPositions (kinematic_state_ s))
            (mat_vec pseudo_inverse (vdiv u_last (dZ 100))))
      (kinematic_state_ s) in
  kinematic_state_ s' = probed /\
  s' = set_status_ (status_ s') (set_kinematic_state_ probed s).
Proof.
  unfold velocityScalingFactorForSingularity, resolve_direction. intros H.
  destruct (condition_number (singularValues svd)) as [ini|]; [|discriminate].
  simpl in H.
  destruct (condition_number _) as [new|] in H; [|discriminate].
  simpl in H.
  destruct (singularity_scale _ _ _) as [scale [st|]] in H;
    injection H as _ <-; split; reflexivity.
Qed.

End SingularityProbe.

Lemma singularity_probe_is_not_undone_witness :
  option_map (fun r => copyJointGroupPositions (kin := planar_kinematics)
                         (kinematic_state_ r.2))
    (velocityScalingFactorForSingularity (kin := planar_kinematics) planar_servo
       [d0; dneg d1] planar_svd planar_pseudo_inverse)
  = Some (copyJointGroupPositions (kin := planar_kinematics)
            (setJointGroupPositions (kin := planar_kinematics)
               (vadd (copyJointGroupPositions (kin := planar_kinematics)
                        (kinematic_state_ planar_servo))
                     (mat_vec planar_pseudo_inverse
                        (vdiv (mcol (matrixU planar_svd) 1) (dZ 100))))
               (kinematic_state_ planar_servo))).
Proof.
  destruct (velocityScalingFactorForSingularity (kin := planar_kinematics) planar_servo
              [d0; dneg d1] planar_svd planar_pseudo_inverse) as [[scale s']|] eqn:E.
  - simpl.
    rewrite (proj1 (singularity_probe_is_not_undone (kin := planar_kinematics)
                      planar_servo s' [d0; dneg d1] planar_svd
                      planar_pseudo_inverse scale E)).
    reflexivity.
  - vm_compute in E. discriminate E.
Defined.

(** The joint positions of the planar robot before and after one call:
    [theta2] has moved from 0 to 1/100. *)
Lemma probe_moves_the_planar_robot :
  copyJointGroupPositions (kin := planar_kinematics) (kinematic_state_ planar_servo)
    = [d0; d0] /\
  option_map (fun r => (fun a => (a ==? d1 / dZ 100)%D) <$>
                       copyJointGroupPositions (kin := planar_kinematics)
                         (kinematic_state_ r.2))
    (velocityScalingFactorForSingularity (kin := planar_kinematics) planar_servo
       [d0; dneg d1] planar_svd planar_pseudo_inverse)
  = Some [false; true].
Proof. split; vm_compute; reflexivity. Qed.

(* ===================================================================== *)
(** ** Properties: stale commands                                         *)
(* ===================================================================== *)

Section Staleness.

Context {kin : Kinematics} {lpf : LowPassFilter}.

(** What [update_from_latest_state] makes of the latest commands and their
    stamps. *)
Lemma update_from_latest_state_commands (now : Z) (s s' : ServoCalcs) :
  update_from_latest_state now s = Some s' ->
  let timeout := duration_from_seconds (incoming_command_timeout (parameters_ s)) in
  twist_stamped_cmd_ s' = default (twist_stamped_cmd_ s) (latest_twist_stamped_ s) /\
  joint_servo_cmd_ s' = default (joint_servo_cmd_ s) (latest_joint_cmd_ s) /\
  twist_command_is_stale_ s' = (now - latest_twist_command_stamp_ s >=? timeout) /\
  joint_command_is_stale_ s' = (now - latest_joint_command_stamp_ s >=? timeout).
Proof.
  unfold update_from_latest_state. intros H.
  destruct (incoming_joint_state_ s); simpl in H; [|discriminate].
  destruct (latest_twist_stamped_ s); simpl in H;
    destruct (latest_joint_cmd_ s); simpl in H;
    injection H as <-; repeat split; reflexivity.
Qed.

(** C8.  A command whose stamp is zero becomes the command of the next
    tick but leaves the stamp of the latest command as it was: the tick
    calls it stale exactly when the time since that older stamp (zero when
    no stamped command has arrived) has reached the timeout. *)
Theorem zero_stamp_command_ages_with_previous_stamp
    (now : Z) (s s1 s2 : ServoCalcs) (tw : TwistStamped) (jog : JointJog) :
  stamp (ts_header tw) = 0 ->
  stamp (jj_header jog) = 0 ->
  update_from_latest_state now (twistStampedCB tw s) = Some s1 ->
  update_from_latest_state now (jointCmdCB jog s) = Some s2 ->
  let timeout := duration_from_seconds (incoming_command_timeout (parameters_ s)) in
  (twist_stamped_cmd_ s1 = tw /\
   twist_command_is_stale_ s1 = (now - latest_twist_command_stamp_ s >=? timeout)) /\
  (joint_servo_cmd_ s2 = jog /\
   joint_command_is_stale_ s2 = (now - latest_joint_command_stamp_ s >=? timeout)).
Proof.
  intros Htw Hjog H1 H2 timeout.
  apply update_from_latest_state_commands in H1 as (Hc1 & _ & Hs1 & _).
  apply update_from_latest_state_commands in H2 as (_ & Hc2 & _ & Hs2).
  unfold twistStampedCB in Hc1, Hs1. unfold jointCmdCB in Hc2, Hs2.
  rewrite Htw in Hc1, Hs1. rewrite Hjog in Hc2, Hs2.
  simpl in Hc1, Hs1, Hc2, Hs2. auto.
Qed.

End Staleness.

Lemma zero_stamp_command_ages_with_previous_stamp_witness :
  let s := jointStateCB single_joint_state (single_servo example_parameters) in
  let tw := twist_of 0 d1 d0 d0 d0 d0 d0 in
  let jog := jog_of 0 ["j1"] [d1] in
  let s1 := default s (update_from_latest_state (kin := single_kinematics)
                         2000000000 (twistStampedCB tw s)) in
  let s2 := default s (update_from_latest_state (kin := single_kinematics)
                         2000000000 (jointCmdCB jog s)) in
  (twist_stamped_cmd_ s1 = tw /\ twist_command_is_stale_ s1 = true) /\
  (joint_servo_cmd_ s2 = jog /\ joint_command_is_stale_ s2 = true).
Proof.
  intros s tw jog s1 s2.
  apply (zero_stamp_command_ages_with_previous_stamp (kin := single_kinematics)
           2000000000 s s1 s2 tw jog); vm_compute; reflexivity.
Defined.

(** A jog command with the stamp 0 that follows a stamped one: the tick
    at 2 ns still runs it, the tick at 5 s no longer does, although no
    other message has arrived in between. *)
Lemma zero_stamp_command_goes_stale :
  option_map (fun r => (joint_command_is_stale_ r.1, select_branch r.1))
    (execute (kin := single_kinematics)
       [ JointStateMsg single_joint_state; Start 0;
         JogMsg (jog_of 1 ["j1"] [d1]); Tick 1;
         JogMsg (jog_of 0 ["j1"] [d1]); Tick 2 ]
       (single_servo example_parameters)) = Some (false, JointBranch) /\
  option_map (fun r => (joint_command_is_stale_ r.1, select_branch r.1))
    (execute (kin := single_kinematics)
       [ JointStateMsg single_joint_state; Start 0;
         JogMsg (jog_of 1 ["j1"] [d1]); Tick 1;
         JogMsg (jog_of 0 ["j1"] [d1]); Tick 2; Tick 5000000000 ]
       (single_servo example_parameters)) = Some (true, NoMotionBranch).
Proof. split; vm_compute; reflexivity. Qed.

(* ===================================================================== *)
(** ** Properties: the shape of a tick                                    *)
(* ===================================================================== *)

Section TickShape.

Context {kin : Kinematics} {lpf : LowPassFilter}.

(** [updateJoints] changes the two joint states only. *)
Lemma updateJoints_frame (s s' : ServoCalcs) (ok : bool) :
  updateJoints s = Some (ok, s') ->
  exists js, s' = if ok then set_original_joint_state_ js (set_internal_joint_state_ js s)
                  else s.
Proof.
  unfold updateJoints. intros H.
  destruct (incoming_joint_state_ s) as [incoming|]; [|discriminate]. simpl in H.
  destruct (_ <? _)%nat.
  - injection H as <- <-. exists (internal_joint_state_ s). reflexivity.
  - destruct (foldl _ _ _) as [pos|]; [|discriminate].
    injection H as <- <-. eexists. reflexivity.
Qed.

(** [resetLowPassFilters] changes the filters and their flag only. *)
Lemma resetLowPassFilters_frame (js : JointState) (s s' : ServoCalcs) :
  resetLowPassFilters js s = Some s' ->
  exists fs, s' = set_updated_filters_ true (set_position_filters_ fs s).
Proof.
  unfold resetLowPassFilters. intros H.
  destruct (mapM _ _) as [fs|]; [|discriminate].
  injection H as <-. eexists. reflexivity.
Qed.

(** [updateJoints] succeeds exactly when the joint state names at least
    [num_joints_] joints. *)
Lemma updateJoints_ok (s s' : ServoCalcs) (ok : bool) :
  updateJoints s = Some (ok, s') ->
  exists incoming, incoming_joint_state_ s = Some incoming /\
    ok = negb (length (js_name incoming) <? num_joints_ s)%nat.
Proof.
  unfold updateJoints. intros H.
  destruct (incoming_joint_state_ s) as [incoming|]; [|discriminate].
  exists incoming. split; [reflexivity|]. cbn [mbind option_bind] in H.
  destruct (_ <? _)%nat.
  - injection H as <- _. reflexivity.
  - destruct (foldl _ _ _); [|discriminate]. injection H as <- _. reflexivity.
Qed.

(** The members that [update_from_latest_state] does not write. *)
Lemma update_from_latest_state_frame (now : Z) (s s' : ServoCalcs) :
  update_from_latest_state now s = Some s' ->
  wait_for_servo_commands_ s' = wait_for_servo_commands_ s /\
  paused_ s' = paused_ s /\
  parameters_ s' = parameters_ s /\
  status_ s' = status_ s /\
  zero_velocity_count_ s' = zero_velocity_count_ s /\
  last_sent_command_ s' = last_sent_command_ s /\
  original_joint_state_ s' = original_joint_state_ s /\
  num_joints_ s' = num_joints_ s /\
  incoming_joint_state_ s' = incoming_joint_state_ s.
Proof.
  unfold update_from_latest_state. intros H.
  destruct (incoming_joint_state_ s) eqn:Ei; simpl in H; [|discriminate].
  destruct (latest_twist_stamped_ s); simpl in H;
    destruct (latest_joint_cmd_ s); simpl in H;
    injection H as <-; simpl; rewrite ?Ei; repeat split; reflexivity.
Qed.

(** The course of one tick: the status is published and reset; without
    enough joints the tick ends there; otherwise the stop time is
    published, the latest state is taken over, and the tick either only
    resets the filters (waiting or paused), or runs the selected branch and
    then, unless the branch failed, the halting and publishing part. *)
Lemma run_inv (now : Z) (s s' : ServoCalcs) (out : Published) :
  run now s = Some (s', out) ->
  exists ok s1,
    updateJoints (set_status_ NO_WARNING s) = Some (ok, s1) /\
    pub_status out = Some (status_to_int8 (status_ s)) /\
    ((ok = false /\ s' = s1 /\ pub_command out = None) \/
     (ok = true /\ exists worst s2,
        calculateWorstCaseStopTime s1 = Some worst /\
        update_from_latest_state now s1 = Some s2 /\
        pub_worst_case_stop_time out = Some worst /\
        ((wait_for_servo_commands_ s2 || paused_ s2 = true /\
          (exists s3, resetLowPassFilters (original_joint_state_ s2) s2 = Some s3 /\
             s' = set_wait_for_servo_commands_
                    ((stamp (ts_header (twist_stamped_cmd_ s3)) =? 0) &&
                     (stamp (jj_header (joint_servo_cmd_ s3)) =? 0)) s3) /\
          True /\ pub_command out = None) \/
         (wait_for_servo_commands_ s2 || paused_ s2 = false /\
          exists ok2 jt s3,
            match select_branch s2 with
            | CartesianBranch => cartesianServoCalcs now s2 empty_trajectory
            | JointBranch => jointServoCalcs now s2 empty_trajectory
            | NoMotionBranch => Some (true, last_sent_command_ s2, s2)
            end = Some (ok2, jt, s3) /\
            ((ok2 = false /\
              resetLowPassFilters (original_joint_state_ s3) s3 = Some s' /\
              pub_command out = None) \/
             (ok2 = true /\
              halt_and_publish now s3 jt = Some (s', pub_command out))))))).
Proof.
  unfold run. intros H.
  destruct (updateJoints (set_status_ NO_WARNING s)) as [[ok s1]|]; [|discriminate].
  exists ok, s1. split; [reflexivity|].
  cbn [mbind option_bind] in H.
  destruct ok; cbn [negb] in H.
  2: { injection H as <- <-. split; [reflexivity|]. left. auto. }
  destruct (calculateWorstCaseStopTime s1) as [worst|] eqn:Ew; [|discriminate].
  cbn [mbind option_bind] in H.
  destruct (update_from_latest_state now s1) as [s2|] eqn:Eu; [|discriminate].
  cbn [mbind option_bind] in H.
  destruct (wait_for_servo_commands_ s2 || paused_ s2) eqn:Ewp.
  - destruct (resetLowPassFilters (original_joint_state_ s2) s2) as [s3|] eqn:Er;
      [|discriminate].
    cbn [mbind option_bind] in H. injection H as <- <-.
    split; [reflexivity|]. right. split; [reflexivity|].
    exists worst, s2. do 3 (split; [reflexivity|]). left.
    split; [exact Ewp|]. split; [|auto]. exists s3. auto.
  - destruct (match select_branch s2 with
              | CartesianBranch => _ | JointBranch => _ | NoMotionBranch => _
              end) as [[[ok2 jt] s3]|] eqn:Eb; [|discriminate].
    cbn [mbind option_bind] in H.
    destruct ok2; cbn [negb] in H.
    + destruct (halt_and_publish now s3 jt) as [[s4 o]|] eqn:Eh; [|discriminate].
      cbn [mbind option_bind] in H. injection H as <- <-.
      split; [reflexivity|]. right. split; [reflexivity|].
      exists worst, s2. do 3 (split; [reflexivity|]). right.
      split; [exact Ewp|].
      exists true, jt, s3. split; [exact Eb|]. right. auto.
    + destruct (resetLowPassFilters (original_joint_state_ s3) s3) as [s4|] eqn:Er;
        [|discriminate].
      cbn [mbind option_bind] in H. injection H as <- <-.
      split; [reflexivity|]. right. split; [reflexivity|].
      exists worst, s2. do 3 (split; [reflexivity|]). right.
      split; [exact Ewp|].
      exists false, jt, s3. split; [exact Eb|]. left. auto.
Qed.

End TickShape.

(* ===================================================================== *)
(** ** Properties: command validation                                     *)
(* ===================================================================== *)

Section Validation.

Context {kin : Kinematics} {lpf : LowPassFilter}.

Lemma forallb_Forall {A} (f : A -> bool) (l : list A) :
  forallb f l = true <-> Forall (fun c => f c = true) l.
Proof.
  induction l as [|a l IH]; simpl; [split; auto|].
  rewrite andb_true_iff, Forall_cons, IH. reflexivity.
Qed.

Lemma checkValidCommand_twist_spec (p : ServoParameters) (cmd : TwistStamped) :
  checkValidCommand_twist p cmd =
    forallb (fun c => negb (isnan c)) (twist_components cmd) &&
    (negb (streq (command_in_type p) "unitless") ||
     forallb (fun c => negb (fabs c >? d1)%D) (twist_components cmd)).
Proof.
  destruct cmd as [hdr [[a b c] [d e f]]].
  unfold checkValidCommand_twist, twist_components.
  cbn [twist linear angular x y z forallb].
  destruct (isnan a), (isnan b), (isnan c), (isnan d), (isnan e), (isnan f);
    cbn [negb andb orb]; try reflexivity.
  destruct (streq _ _); cbn [negb andb orb]; [|reflexivity].
  destruct (fabs a >? d1)%D, (fabs b >? d1)%D, (fabs c >? d1)%D,
    (fabs d >? d1)%D, (fabs e >? d1)%D, (fabs f >? d1)%D; reflexivity.
Qed.

(** C5.  A twist command is accepted exactly when none of its components
    is NaN and, for unitless commands, none has an absolute value above 1;
    an infinite component passes in [speed_units].  A tick that selects an
    invalid twist command publishes no command, and ends with the status
    [NO_WARNING] to which it had reset it. *)
Theorem invalid_twist_is_nan_or_large (p : ServoParameters) (cmd : TwistStamped) :
  (checkValidCommand_twist p cmd = true <->
     Forall (fun c => isnan c = false) (twist_components cmd) /\
     (command_in_type p = "unitless" ->
      Forall (fun c => (fabs c >? d1)%D = false) (twist_components cmd))) /\
  forall (now : Z) (s s' : ServoCalcs) (out : Published),
    parameters_ s = p ->
    latest_twist_stamped_ s = Some cmd ->
    latest_nonzero_twist_stamped_ s = true ->
    now - latest_twist_command_stamp_ s
      < duration_from_seconds (incoming_command_timeout p) ->
    wait_for_servo_commands_ s = false ->
    paused_ s = false ->
    checkValidCommand_twist p cmd = false ->
    run now s = Some (s', out) ->
    pub_command out = None /\ status_ s' = NO_WARNING /\
    pub_status out = Some (status_to_int8 (status_ s)).
Proof.
  split.
  - rewrite checkValidCommand_twist_spec, andb_true_iff, orb_true_iff,
      negb_true_iff, !forallb_Forall.
    rewrite (Forall_iff (fun c => negb (isnan c) = true) _
                        (fun c => isnan c = false))
      by (intros c; apply negb_true_iff).
    rewrite (Forall_iff (fun c => negb (fabs c >? d1)%D = true) _
                        (fun c => (fabs c >? d1)%D = false))
      by (intros c; apply negb_true_iff).
    unfold streq. rewrite <- not_true_iff_false, String.eqb_eq.
    destruct (decide (command_in_type p = "unitless")); tauto.
  - intros now s s' out Hp Hcmd Hnz Hfresh Hwait Hpause Hbad Hrun.
    apply run_inv in Hrun as (ok & s1 & E1 & Hst & Hrun).
    apply updateJoints_frame in E1 as [js ->].
    destruct Hrun as [(-> & -> & Hc)|(-> & worst & s2 & _ & E2 & _ & Hrun)];
      [auto|].
    pose proof (update_from_latest_state_flags _ _ _ E2) as (F1 & _ & _).
    pose proof (update_from_latest_state_commands _ _ _ E2) as (C1 & _ & C3 & _).
    pose proof (update_from_latest_state_frame _ _ _ E2) as (W & P & Pp & St & _).
    simpl in F1, C1, C3, W, P, Pp, St.
    rewrite Hcmd in C1. simpl in C1. rewrite Hp in C3, Pp.
    destruct Hrun as [(Hwp & _ & _ & _)|(Hwp & ok2 & jt & s3 & Hbr & Hrun)].
    { rewrite W, P, Hwait, Hpause in Hwp. discriminate Hwp. }
    assert (G : (now - latest_twist_command_stamp_ s >=?
                   duration_from_seconds (incoming_command_timeout p)) = false)
      by (rewrite Z.geb_leb; apply Z.leb_gt; lia).
    unfold select_branch in Hbr. rewrite F1, Hnz, C3, G in Hbr.
    cbn [andb negb] in Hbr. unfold cartesianServoCalcs in Hbr.
    rewrite Pp, C1, Hbad in Hbr. cbn [negb] in Hbr. injection Hbr as <- <- <-.
    destruct Hrun as [(_ & E3 & Hc)|(Hf & _)]; [|discriminate Hf].
    apply resetLowPassFilters_frame in E3 as [fs ->].
    split; [exact Hc|]. split; [exact St|exact Hst].
Qed.

End Validation.

Lemma invalid_twist_is_nan_or_large_witness :
  let s := single_servo_with_twist nan_twist in
  let r := default (s, {| pub_status := None; pub_worst_case_stop_time := None;
                          pub_command := None |})
             (run (kin := single_kinematics) 2 s) in
  pub_command r.2 = None /\ status_ r.1 = NO_WARNING /\
  pub_status r.2 = Some (status_to_int8 (status_ s)).
Proof.
  intros s r.
  apply (proj2 (invalid_twist_is_nan_or_large (kin := single_kinematics)
                  example_parameters nan_twist) 2 s r.1 r.2);
    vm_compute; reflexivity.
Defined.

(** An infinite component is accepted in [speed_units]: the command is
    valid although not all of its components are finite. *)
Lemma infinite_twist_is_accepted :
  command_in_type example_parameters = "speed_units" /\
  checkValidCommand_twist example_parameters infinite_twist = true /\
  forallb isfinite (twist_components infinite_twist) = false.
Proof. repeat split; reflexivity. Qed.

(* ===================================================================== *)
(** ** Properties: the collision scale                                    *)
(* ===================================================================== *)

Section CollisionScale.

Context {kin : Kinematics} {lpf : LowPassFilter}.

(** C3.  The collision scale is applied as it was received: after
    [collisionVelocityScaleCB c], the joint deltas that
    [internalServoUpdate] keeps are the limited deltas times [c] itself,
    whatever [c] is.  The status becomes [DECELERATE_FOR_COLLISION] for
    [0 < c < 1] and [HALT_FOR_COLLISION] for [c = 0]; for any other [c] the
    scaling leaves it alone (a halt at a joint bound may still overwrite
    it). *)
Theorem collision_scale_applied_as_received
    (now : Z) (s0 s' : ServoCalcs) (c : double) (jt jt' : JointTrajectory)
    (ok : bool) (limited : vec) :
  enforceSRDFAccelVelLimits (parameters_ s0) (prev_joint_velocity_ s0)
    (delta_theta_ s0) = Some limited ->
  internalServoUpdate now (collisionVelocityScaleCB c s0) jt = Some (ok, jt', s') ->
  delta_theta_ s' = (fun a => (a * c)%D) <$> limited /\
  (status_ s' = JOINT_BOUND \/
   status_ s' = if (c >? d0)%D && (c <? d1)%D then DECELERATE_FOR_COLLISION
                else if (c ==? d0)%D then HALT_FOR_COLLISION
                else status_ s0).
Proof.
  intros Hlim H.
  unfold internalServoUpdate, limited_delta_theta, collision_status,
    collisionVelocityScaleCB in H.
  cbn [collision_velocity_scale_ set_collision_velocity_scale_
       set_internal_joint_state_] in H.
  destruct ((c >? d0)%D && (c <? d1)%D) eqn:E1; [|destruct (c ==? d0)%D eqn:E2];
    simpl in H; rewrite Hlim in H; simpl in H;
    (destruct (applyJointUpdate _ _ _ _ _) as [[[[js pv] fs]|]|];
     [| injection H as <- <- <-; simpl; auto | discriminate]);
    simpl in H;
    (destruct (enforceSRDFPositionLimits _); simpl in H;
     [| destruct (suddenHalt _ _); simpl in H; [|discriminate] ]);
    (destruct (use_gazebo _); simpl in H;
     [ destruct (insertRedundantPointsIntoTrajectory _ _ _); simpl in H;
       [|discriminate] | ]);
    injection H as <- <- <-; simpl; auto.
Qed.

End CollisionScale.

(** The collision scales 2 and -1 on the one-joint robot, which is jogged
    with velocity 1: the command goes out with velocity 2, respectively -1,
    and the status stays [NO_WARNING]. *)
Lemma collision_scale_is_not_clamped :
  option_map (fun r => ((fun v => (v ==? dZ 2)%D) <$> last_command_velocities r.2,
                        status_ r.1))
    (execute (kin := single_kinematics) (ticks_with_collision_scale (dZ 2))
       (single_servo example_parameters)) = Some ([true], NO_WARNING) /\
  option_map (fun r => ((fun v => (v ==? dZ (-1))%D) <$> last_command_velocities r.2,
                        status_ r.1))
    (execute (kin := single_kinematics) (ticks_with_collision_scale (dZ (-1)))
       (single_servo example_parameters)) = Some ([true], NO_WARNING).
Proof. split; vm_compute; reflexivity. Qed.

Lemma collision_scale_applied_as_received_witness :
  let s0 := set_delta_theta_ [d1] (single_servo_with_twist zero_twist) in
  let r := default (false, empty_trajectory, s0)
             (internalServoUpdate (kin := single_kinematics) 2
                (collisionVelocityScaleCB (dZ 2) s0) empty_trajectory) in
  delta_theta_ r.2 = [(d1 * dZ 2)%D] /\
  (status_ r.2 = JOINT_BOUND \/ status_ r.2 = status_ s0).
Proof.
  intros s0 r.
  apply (collision_scale_applied_as_received (kin := single_kinematics)
           2 s0 r.2 (dZ 2) empty_trajectory r.1.2 r.1.1 [d1]);
    vm_compute; reflexivity.
Defined.

(* ===================================================================== *)
(** ** Properties: velocity and acceleration limits                       *)
(* ===================================================================== *)

Lemma Qdiv_lt_iff (a b t : Q) : (0 < t)%Q -> (a / t < b <-> a < b * t)%Q.
Proof.
  intros Ht. assert (E : (a / t * t == a)%Q) by (field; lra).
  split; intros H.
  - rewrite <- E. apply Qmult_lt_compat_r; assumption.
  - apply Qlt_shift_div_r; assumption.
Qed.

Lemma Qdiv_gt_iff (a b t : Q) : (0 < t)%Q -> (b < a / t <-> b * t < a)%Q.
Proof.
  intros Ht. assert (E : (a / t * t == a)%Q) by (field; lra).
  split; intros H.
  - rewrite <- E. apply Qmult_lt_compat_r; assumption.
  - apply Qlt_shift_div_l; assumption.
Qed.

Lemma Qdiv_le_iff (a b t : Q) : (0 < t)%Q -> (a / t <= b <-> a <= b * t)%Q.
Proof.
  intros Ht. pose proof (Qdiv_gt_iff a b t Ht) as G.
  split; intros H; apply Qnot_lt_le; intros C; apply G in C || apply (proj2 G) in C;
    apply Qlt_not_le in C; contradiction.
Qed.

Lemma Qdiv_ge_iff (a b t : Q) : (0 < t)%Q -> (b <= a / t <-> b * t <= a)%Q.
Proof.
  intros Ht. pose proof (Qdiv_lt_iff a b t Ht) as G.
  split; intros H; apply Qnot_lt_le; intros C; apply G in C || apply (proj2 G) in C;
    apply Qlt_not_le in C; contradiction.
Qed.


Section Limits.

Variables (p : ServoParameters) (T : Q).
Hypothesis HT : publish_period p = Fin T.
Hypothesis HTpos : (0 < T)%Q.


End Limits.

(** A loop that updates one index per element, each from the value it
    finds there: the result has every visited index updated from the
    original value and the other indices untouched. *)
Section IndexedLoop.

Context {J X : Type}.
Variable F : option (list X) -> nat * J -> option (list X).
Variable h : nat -> J -> X -> option X.
Hypothesis F_None : forall ij, F None ij = None.
Hypothesis F_Some : forall d i j,
  F (Some d) (i, j) = a ← d !! i; b ← h i j a; Some (<[i := b]> d).

Lemma foldl_F_None (l : list (nat * J)) : foldl F None l = None.
Proof. induction l as [|ij l IH]; simpl; [reflexivity|]. rewrite F_None. exact IH. Qed.

Lemma foldl_update_each (l : list J) :
  forall (k : nat) (d r : list X),
    foldl F (Some d) (imap (fun n j => ((k + n)%nat, j)) l) = Some r ->
    length r = length d /\
    (forall i, (i < k \/ k + length l <= i)%nat -> r !! i = d !! i) /\
    (forall n j, l !! n = Some j ->
       exists a b, d !! (k + n)%nat = Some a /\ h (k + n)%nat j a = Some b /\
                   r !! (k + n)%nat = Some b).
Proof.
  induction l as [|j l IH]; intros k d r H.
  - simpl in H. injection H as <-. repeat split; auto.
    intros n j Hn. discriminate Hn.
  - rewrite imap_cons in H. simpl in H. rewrite F_Some, Nat.add_0_r in H.
    destruct (d !! k) as [a|] eqn:Ea; simpl in H;
      [|rewrite foldl_F_None in H; discriminate].
    destruct (h k j a) as [b|] eqn:Eb; simpl in H;
      [|rewrite foldl_F_None in H; discriminate].
    rewrite (imap_ext _ (fun n j => ((S k + n)%nat, j))) in H
      by (intros; simpl; f_equal; lia).
    apply IH in H as (Hlen & Hout & Hin).
    rewrite length_insert in Hlen.
    assert (Hk : (k < length d)%nat) by (eapply lookup_lt_Some; eauto).
    split; [exact Hlen|]. split.
    + intros i Hi. simpl in Hi. rewrite Hout by lia.
      apply list_lookup_insert_ne. lia.
    + intros [|n] j' Hn; simpl in Hn.
      * injection Hn as <-. rewrite Nat.add_0_r. exists a, b.
        repeat split; auto.
        rewrite Hout by lia. apply list_lookup_insert_eq. exact Hk.
      * destruct (Hin n j' Hn) as (a' & b' & Ha' & Hb' & Hr').
        rewrite list_lookup_insert_ne in Ha' by lia.
        replace (k + S n)%nat with (S k + n)%nat by lia.
        exists a', b'. auto.
Qed.

End IndexedLoop.

Section LimitsLoop.

Context {kin : Kinematics}.

(** [enforceSRDFAccelVelLimits] limits the delta of each joint of the group
    on its own, from the velocity and acceleration that the incoming deltas
    imply, and leaves the entries past the group alone. *)
Lemma enforceSRDFAccelVelLimits_each
    (p : ServoParameters) (prev delta r : vec) :
  enforceSRDFAccelVelLimits p prev delta = Some r ->
  length r = length delta /\
  (forall i, (length getActiveJointModels <= i)%nat -> r !! i = delta !! i) /\
  (forall i joint, getActiveJointModels !! i = Some joint ->
     exists bounds a pv,
       head (jm_variable_bounds joint) = Some bounds /\
       delta !! i = Some a /\ prev !! i = Some pv /\
       r !! i = Some (enforceSingleVelAccelLimit p bounds
                        (a / publish_period p)%D pv
                        ((a / publish_period p - pv) / publish_period p)%D a).2).
Proof.
  unfold enforceSRDFAccelVelLimits. intros H.
  set (velocity := vdiv delta (publish_period p)) in *.
  set (acceleration := vdiv (vsub velocity prev) (publish_period p)) in *.
  change (imap pair getActiveJointModels)
    with (imap (fun n j => ((0 + n)%nat, j)) getActiveJointModels) in H.
  eapply (foldl_update_each _
            (fun i joint a =>
               bounds ← head (jm_variable_bounds joint);
               vel ← velocity !! i;
               prev_vel ← prev !! i;
               accel ← acceleration !! i;
               Some (enforceSingleVelAccelLimit p bounds vel prev_vel accel a).2))
    in H as (Hlen & Hout & Hin).
  - split; [exact Hlen|]. split.
    + intros i Hi. apply Hout. right. simpl. exact Hi.
    + intros i joint Hj. destruct (Hin i joint Hj) as (a & b & Ha & Hb & Hr).
      simpl in Ha, Hb, Hr.
      destruct (head (jm_variable_bounds joint)) as [bounds|]; [|discriminate].
      simpl in Hb.
      assert (Hv : velocity !! i = Some (a / publish_period p)%D).
      { unfold velocity, vdiv. rewrite list_lookup_fmap, Ha. reflexivity. }
      rewrite Hv in Hb. simpl in Hb.
      destruct (prev !! i) as [pv|] eqn:Epv; [|discriminate]. simpl in Hb.
      assert (Hacc : acceleration !! i
                     = Some ((a / publish_period p - pv) / publish_period p)%D).
      { unfold acceleration, vdiv, vsub.
        rewrite list_lookup_fmap, lookup_zip_with, Hv. simpl.
        rewrite Epv. reflexivity. }
      rewrite Hacc in Hb. simpl in Hb. injection Hb as <-.
      exists bounds, a, pv. auto.
  - intros [i j]. reflexivity.
  - intros d i j. simpl.
    destruct (head (jm_variable_bounds j)); simpl;
      [|destruct (d !! i); reflexivity].
    destruct (velocity !! i); simpl; [|destruct (d !! i); reflexivity].
    destruct (prev !! i); simpl; [|destruct (d !! i); reflexivity].
    destruct (acceleration !! i); simpl; [|destruct (d !! i); reflexivity].
    destruct (d !! i); reflexivity.
Qed.

End LimitsLoop.

Section JointUpdate.

Context {lpf : LowPassFilter}.

Variables (p : ServoParameters) (delta_theta : vec).

(** One pass of the loop of [applyJointUpdate]. *)
Let update_step (acc : option (JointState * vec * list filter_state)) (i : nat)
    : option (JointState * vec * list filter_state) :=
  '(js, pv, fs) ← acc;
  pos ← js_position js !! i;
  d ← delta_theta !! i;
  f ← fs !! i;
  let '(f, filtered) := filter f (pos + d)%D in
  let v := (d / publish_period p)%D in
  Some ({| js_name := js_name js;
           js_position := <[i := filtered]> (js_position js);
           js_velocity := <[i := v]> (js_velocity js) |},
        <[i := v]> pv,
        <[i := f]> fs).

Lemma update_step_None (l : list nat) : foldl update_step None l = None.
Proof. induction l; simpl; auto. Qed.

Lemma update_loop (m : nat) :
  forall (k : nat) (js js' : JointState) (pv pv' : vec) (fs fs' : list filter_state),
    foldl update_step (Some (js, pv, fs)) (seq k m) = Some (js', pv', fs') ->
    js_name js' = js_name js /\
    length (js_position js') = length (js_position js) /\
    length (js_velocity js') = length (js_velocity js) /\
    length pv' = length pv /\ length fs' = length fs /\
    (forall i, (i < k \/ k + m <= i)%nat ->
       js_position js' !! i = js_position js !! i /\
       js_velocity js' !! i = js_velocity js !! i /\
       pv' !! i = pv !! i /\ fs' !! i = fs !! i) /\
    (forall i, (k <= i < k + m)%nat ->
       exists pos d f,
         js_position js !! i = Some pos /\ delta_theta !! i = Some d /\
         fs !! i = Some f /\
         js_position js' !! i = Some (filter f (pos + d)%D).2 /\
         fs' !! i = Some (filter f (pos + d)%D).1 /\
         (i < length (js_velocity js) ->
          js_velocity js' !! i = Some (d / publish_period p)%D)%nat /\
         (i < length pv -> pv' !! i = Some (d / publish_period p)%D)%nat).
Proof.
  induction m as [|m IH]; intros k js js' pv pv' fs fs' H.
  - simpl in H. injection H as <- <- <-. repeat split; auto. intros i Hi. lia.
  - simpl in H.
    destruct (js_position js !! k) as [pos|] eqn:Epos; simpl in H;
      [|rewrite update_step_None in H; discriminate].
    destruct (delta_theta !! k) as [d|] eqn:Ed; simpl in H;
      [|rewrite update_step_None in H; discriminate].
    destruct (fs !! k) as [f|] eqn:Ef; simpl in H;
      [|rewrite update_step_None in H; discriminate].
    destruct (filter f (pos + d)%D) as [f1 filtered] eqn:Efl.
    apply IH in H as (Hn & Hlp & Hlv & Hlpv & Hlfs & Hout & Hin).
    simpl in Hn, Hlp, Hlv, Hout, Hin.
    rewrite length_insert in Hlp. rewrite length_insert in Hlv.
    rewrite length_insert in Hlpv. rewrite length_insert in Hlfs.
    assert (Hkp : (k < length (js_position js))%nat) by (eapply lookup_lt_Some; eauto).
    assert (Hkf : (k < length fs)%nat) by (eapply lookup_lt_Some; eauto).
    repeat split; auto.
    + destruct (Hout i) as (A & _); [lia|]. rewrite A.
      apply list_lookup_insert_ne. lia.
    + destruct (Hout i) as (_ & A & _); [lia|]. rewrite A.
      apply list_lookup_insert_ne. lia.
    + destruct (Hout i) as (_ & _ & A & _); [lia|]. rewrite A.
      apply list_lookup_insert_ne. lia.
    + destruct (Hout i) as (_ & _ & _ & A); [lia|]. rewrite A.
      apply list_lookup_insert_ne. lia.
    + intros i Hi. destruct (decide (i = k)) as [->|Hne].
      * destruct (Hout k) as (A & B & C & D); [lia|].
        exists pos, d, f. rewrite A, B, C, D, Efl. simpl.
        repeat split; auto.
        -- apply list_lookup_insert_eq. exact Hkp.
        -- apply list_lookup_insert_eq. exact Hkf.
        -- intros Hv. apply list_lookup_insert_eq. exact Hv.
        -- intros Hv. apply list_lookup_insert_eq. exact Hv.
      * destruct (Hin i) as (pos' & d' & f' & A & B & C & D & E & G & G'); [lia|].
        rewrite list_lookup_insert_ne in A by lia.
        rewrite list_lookup_insert_ne in C by lia.
        rewrite length_insert in G. rewrite length_insert in G'.
        exists pos', d', f'. repeat split; auto.
Qed.

(** With enough positions, deltas and filters the loop runs through. *)
Lemma update_loop_succeeds (m : nat) :
  forall (k : nat) (js : JointState) (pv : vec) (fs : list filter_state),
    (k + m <= length (js_position js))%nat ->
    (k + m <= length delta_theta)%nat ->
    (k + m <= length fs)%nat ->
    is_Some (foldl update_step (Some (js, pv, fs)) (seq k m)).
Proof.
  induction m as [|m IH]; intros k js pv fs Hp Hd Hf; [simpl; eauto|].
  simpl.
  destruct (lookup_lt_is_Some_2 (js_position js) k) as [pos Epos]; [lia|].
  destruct (lookup_lt_is_Some_2 delta_theta k) as [d Ed]; [lia|].
  destruct (lookup_lt_is_Some_2 fs k) as [f Ef]; [lia|].
  rewrite Epos, Ed, Ef. simpl.
  destruct (filter f (pos + d)%D) as [f1 filtered].
  apply IH; simpl; rewrite ?length_insert; lia.
Qed.

End JointUpdate.

Section EmittedVelocity.

Context {kin : Kinematics} {lpf : LowPassFilter}.

(** When the sizes match and the loop succeeds, [applyJointUpdate] reports
    the velocity [delta / publish_period] for every joint and stores the
    same in [previous_vel]; the names are kept. *)
Lemma applyJointUpdate_velocities
    (p : ServoParameters) (filters fs' : list filter_state) (delta_theta pv pv' : vec)
    (js js' : JointState) :
  applyJointUpdate p filters delta_theta js pv = Some (Some (js', pv', fs')) ->
  js_velocity js' = vdiv delta_theta (publish_period p) /\
  pv' = vdiv delta_theta (publish_period p) /\
  js_name js' = js_name js /\
  length (js_position js') = length delta_theta.
Proof.
  unfold applyJointUpdate. intros H.
  destruct (negb (length (js_position js) =? length delta_theta)%nat) eqn:E1;
    [discriminate|].
  destruct (negb (length (js_velocity js) =? length (js_position js))%nat) eqn:E2;
    [discriminate|].
  destruct (negb (length pv =? length (js_position js))%nat) eqn:E3;
    [discriminate|].
  apply negb_false_iff, Nat.eqb_eq in E1, E2, E3. simpl in H.
  destruct (foldl _ _ _) as [[[js1 pv1] fs1]|] eqn:E; [|discriminate].
  injection H as -> -> ->.
  apply update_loop in E as (Hn & Hlp & Hlv & Hlpv & _ & _ & Hin).
  repeat split; auto; [| |lia].
  - apply list_eq. intros i. unfold vdiv. rewrite list_lookup_fmap.
    destruct (decide (i < length delta_theta)%nat) as [Hi|Hi].
    + destruct (Hin i) as (pos & d & f & _ & Hd & _ & _ & _ & Hv & _); [lia|].
      rewrite Hd. simpl. apply Hv. lia.
    + rewrite !lookup_ge_None_2; [reflexivity|lia|lia].
  - apply list_eq. intros i. unfold vdiv. rewrite list_lookup_fmap.
    destruct (decide (i < length delta_theta)%nat) as [Hi|Hi].
    + destruct (Hin i) as (pos & d & f & _ & Hd & _ & _ & _ & _ & Hv); [lia|].
      rewrite Hd. simpl. apply Hv. lia.
    + rewrite !lookup_ge_None_2; [reflexivity|lia|lia].
Qed.


End EmittedVelocity.

(* ===================================================================== *)
(** ** Properties: halting                                                *)
(* ===================================================================== *)

Section Halting.

Context {lpf : LowPassFilter}.

Variables (p : ServoParameters) (original : vec).

(** One pass of the loop of [suddenHalt]. *)
Let halt_step (acc : option JointTrajectoryPoint) (i : nat)
    : option JointTrajectoryPoint :=
  pt ← acc;
  pos ← (if publish_joint_positions p then
           o ← original !! i;
           if (i <? length (positions pt))%nat
           then Some (<[i := o]> (positions pt)) else None
         else Some (positions pt));
  vel ← (if publish_joint_velocities p then
           if (i <? length (velocities pt))%nat
           then Some (<[i := d0]> (velocities pt)) else None
         else Some (velocities pt));
  Some {| positions := pos; velocities := vel;
          accelerations := accelerations pt;
          time_from_start := time_from_start pt |}.

Lemma halt_step_None (l : list nat) : foldl halt_step None l = None.
Proof. induction l; simpl; auto. Qed.

Lemma halt_loop (m : nat) :
  forall (k : nat) (pt pt' : JointTrajectoryPoint),
    foldl halt_step (Some pt) (seq k m) = Some pt' ->
    accelerations pt' = accelerations pt /\
    time_from_start pt' = time_from_start pt /\
    (forall i, (i < k \/ k + m <= i)%nat ->
       positions pt' !! i = positions pt !! i /\
       velocities pt' !! i = velocities pt !! i) /\
    (forall i, (k <= i < k + m)%nat ->
       (publish_joint_positions p = true ->
        exists o, original !! i = Some o /\ positions pt' !! i = Some o) /\
       (publish_joint_velocities p = true -> velocities pt' !! i = Some d0)).
Proof.
  induction m as [|m IH]; intros k pt pt' H.
  - simpl in H. injection H as <-. repeat split; auto; lia.
  - simpl in H.
    destruct (if publish_joint_positions p then _ else _) as [pos|] eqn:Epos;
      simpl in H; [|rewrite halt_step_None in H; discriminate].
    destruct (if publish_joint_velocities p then _ else _) as [vel|] eqn:Evel;
      simpl in H; [|rewrite halt_step_None in H; discriminate].
    apply IH in H as (Ha & Ht & Hout & Hin). simpl in Ha, Ht, Hout, Hin.
    split; [exact Ha|]. split; [exact Ht|]. split.
    + intros i Hi. destruct (Hout i) as [A B]; [lia|]. rewrite A, B.
      split.
      * destruct (publish_joint_positions p); simpl in Epos.
        -- destruct (original !! k); simpl in Epos; [|discriminate].
           destruct (k <? length (positions pt))%nat; [|discriminate].
           injection Epos as <-. apply list_lookup_insert_ne. lia.
        -- injection Epos as <-. reflexivity.
      * destruct (publish_joint_velocities p); simpl in Evel.
        -- destruct (k <? length (velocities pt))%nat; [|discriminate].
           injection Evel as <-. apply list_lookup_insert_ne. lia.
        -- injection Evel as <-. reflexivity.
    + intros i Hi. destruct (decide (i = k)) as [->|Hne].
      * destruct (Hout k) as [A B]; [lia|]. rewrite A, B. split.
        -- intros Hp. rewrite Hp in Epos. simpl in Epos.
           destruct (original !! k) as [o|]; simpl in Epos; [|discriminate].
           destruct (k <? length (positions pt))%nat eqn:El; [|discriminate].
           injection Epos as <-. exists o. split; [reflexivity|].
           apply list_lookup_insert_eq, Nat.ltb_lt, El.
        -- intros Hv. rewrite Hv in Evel.
           destruct (k <? length (velocities pt))%nat eqn:El; [|discriminate].
           injection Evel as <-. apply list_lookup_insert_eq, Nat.ltb_lt, El.
      * apply Hin. lia.
Qed.



End Halting.

Section SuddenHalt.

Context {lpf : LowPassFilter}.

(** [suddenHalt] rewrites the first point: with [publish_joint_velocities]
    its first [num_joints_] velocities become 0, with
    [publish_joint_positions] its first [num_joints_] positions become the
    original joint positions.  Header and names are kept. *)
Lemma suddenHalt_first_point (s : ServoCalcs) (jt jt' : JointTrajectory) :
  suddenHalt s jt = Some jt' ->
  jt_header jt' = jt_header jt /\ joint_names jt' = joint_names jt /\
  exists pt,
    head (points jt') = Some pt /\
    (publish_joint_velocities (parameters_ s) = true ->
     forall i, (i < num_joints_ s)%nat -> velocities pt !! i = Some d0) /\
    (publish_joint_positions (parameters_ s) = true ->
     forall i, (i < num_joints_ s)%nat ->
       exists o, js_position (original_joint_state_ s) !! i = Some o /\
                 positions pt !! i = Some o).
Proof.
  unfold suddenHalt. intros H.
  match type of H with context [head ?l] => set (pts := l) in * end.
  destruct (head pts) as [pt0|] eqn:Eh; [|discriminate]. simpl in H.
  destruct (foldl _ _ _) as [pt|] eqn:E; [|discriminate].
  injection H as <-. simpl.
  apply halt_loop in E as (_ & _ & _ & Hin).
  split; [reflexivity|]. split; [reflexivity|].
  exists pt. split.
  { destruct pts; [discriminate Eh|reflexivity]. }
  split.
  - intros Hv i Hi. apply (Hin i); [lia|exact Hv].
  - intros Hp i Hi. apply (Hin i); [lia|exact Hp].
Qed.



End SuddenHalt.

(* ===================================================================== *)
(** ** Properties: the halt-message counter                               *)
(* ===================================================================== *)

Section HaltCounter.

Context {kin : Kinematics} {lpf : LowPassFilter}.

(** The halting and publishing part of a tick without a nonzero command:
    [suddenHalt] is applied, the counter is advanced, and the halted
    trajectory goes out when the counter before the advance allows it. *)
Lemma halt_and_publish_zero_command
    (now : Z) (s s' : ServoCalcs) (jt : JointTrajectory) (out : option OutgoingCmd) :
  have_nonzero_command_ s = false ->
  halt_and_publish now s jt = Some (s', out) ->
  let p := parameters_ s in
  let limit := num_outgoing_halt_msgs_to_publish p in
  let count := zero_velocity_count_ s in
  exists halted,
    suddenHalt s jt = Some halted /\
    zero_velocity_count_ s' = (if count <? INT_MAX then count + 1 else count) /\
    original_joint_state_ s' = original_joint_state_ s /\
    out = if (limit =? 0) || (count <=? limit) then
            if streq (command_out_type p) "trajectory_msgs/JointTrajectory" then
              Some (OutTrajectory
                      {| jt_header := {| stamp := now;
                                         frame_id := frame_id (jt_header halted) |};
                         joint_names := joint_names halted;
                         points := points halted |})
            else if streq (command_out_type p) "std_msgs/Float64MultiArray" then
              Some (OutMultiArray
                      match points halted with
                      | pt :: _ =>
                          if publish_joint_positions p then positions pt
                          else if publish_joint_velocities p then velocities pt
                          else []
                      | [] => []
                      end)
            else None
          else None.
Proof.
  intros Hz H p limit count.
  unfold halt_and_publish in H. rewrite Hz in H. simpl in H.
  destruct (suddenHalt s jt) as [halted|]; [|discriminate]. simpl in H.
  exists halted. split; [reflexivity|].
  unfold decide_ok_to_publish, next_zero_velocity_count in H. simpl in H.
  rewrite Hz in H. simpl in H.
  fold p in H. fold limit count in H.
  assert (Hok : (if negb (limit =? 0) && (count >? limit) then false else true)
                = ((limit =? 0) || (count <=? limit))).
  { rewrite Z.gtb_ltb, Z.leb_antisym.
    destruct (limit =? 0), (limit <? count); reflexivity. }
  rewrite Hok in H.
  destruct ((limit =? 0) || (count <=? limit)); simpl in H;
    [destruct (streq (command_out_type p) "trajectory_msgs/JointTrajectory");
     [|destruct (streq (command_out_type p) "std_msgs/Float64MultiArray")]|];
    simpl in H;
    (destruct (updated_filters_ s); simpl in H;
     [| destruct (resetLowPassFilters _ _) as [s3|] eqn:E3; [|discriminate];
        apply resetLowPassFilters_frame in E3 as [fs ->] ]);
    injection H as <- <-; simpl; auto.
Qed.

(** C4.  With [num_outgoing_halt_msgs_to_publish = 2]: the first tick
    waits, the second moves the joint at velocity 1; an all-zero command
    then makes the next three ticks publish the halt command (the joint at
    its position, velocity 0) and the ticks after them publish nothing.  In general, on a tick that is neither waiting for
    commands nor paused, whose joint state names enough joints and for
    which neither latest command is nonzero, the counter is advanced by one
    unless it is at [INT_MAX]; nothing is published when the limit is not 0
    and the counter, as it was before being advanced, exceeds the limit;
    otherwise the command published is the halted trajectory: in its first
    point the velocities of the joints are 0 and their positions are the
    ones read from the joint state. *)
Theorem halt_messages_counted_before_increment :
  option_map (fun r => commands r.2)
    (execute (kin := single_kinematics) move_then_zero_commands
       (single_servo example_parameters))
    = Some [ None; Some single_move_command;
             Some (single_halt_command 3); Some (single_halt_command 4);
             Some (single_halt_command 5); None; None ] /\
  forall (now : Z) (s s' : ServoCalcs) (out : Published) (js : JointState),
    wait_for_servo_commands_ s = false ->
    paused_ s = false ->
    latest_nonzero_twist_stamped_ s = false ->
    latest_nonzero_joint_cmd_ s = false ->
    incoming_joint_state_ s = Some js ->
    (num_joints_ s <= length (js_name js))%nat ->
    run now s = Some (s', out) ->
    let p := parameters_ s in
    let limit := num_outgoing_halt_msgs_to_publish p in
    let count := zero_velocity_count_ s in
    zero_velocity_count_ s' = (if count <? INT_MAX then count + 1 else count) /\
    ((limit =? 0) || (count <=? limit) = false -> pub_command out = None) /\
    ((limit =? 0) || (count <=? limit) = true ->
     exists halted pt,
       head (points halted) = Some pt /\
       (publish_joint_velocities p = true ->
        forall i, (i < num_joints_ s)%nat -> velocities pt !! i = Some d0) /\
       (publish_joint_positions p = true ->
        forall i, (i < num_joints_ s)%nat ->
          exists o, js_position (original_joint_state_ s') !! i = Some o /\
                    positions pt !! i = Some o) /\
       (command_out_type p = "trajectory_msgs/JointTrajectory" ->
        pub_command out =
          Some (OutTrajectory
                  {| jt_header := {| stamp := now;
                                     frame_id := frame_id (jt_header halted) |};
                     joint_names := joint_names halted;
                     points := points halted |})) /\
       (command_out_type p = "std_msgs/Float64MultiArray" ->
        pub_command out =
          Some (OutMultiArray
                  (if publish_joint_positions p then positions pt
                   else if publish_joint_velocities p then velocities pt
                   else [])))).
Proof.
  split; [vm_compute; reflexivity|].
  intros now s s' out js Hwait Hpause Htw Hjg Hjs Hlen Hrun p limit count.
  apply run_inv in Hrun as (ok & s1 & E1 & _ & Hrun).
  pose proof (updateJoints_ok _ _ _ E1) as (incoming & Hinc & Hok).
  apply updateJoints_frame in E1 as [js1 E1].
  simpl in Hinc, Hok. rewrite Hjs in Hinc. injection Hinc as <-.
  assert (Hok' : ok = true).
  { rewrite Hok. apply negb_true_iff, Nat.ltb_ge. exact Hlen. }
  clear Hok. subst ok. subst s1.
  destruct Hrun as [(Hf & _)|(_ & worst & s2 & _ & E2 & _ & Hrun)];
    [discriminate Hf|].
  pose proof (update_from_latest_state_flags _ _ _ E2) as (F1 & F2 & F3).
  pose proof (update_from_latest_state_frame _ _ _ E2)
    as (W & P & Pp & _ & Zc & _ & Ho & Nj & _).
  simpl in F1, F2, F3, W, P, Pp, Zc, Nj.
  rewrite Htw in F1, F3. rewrite Hjg in F2, F3. simpl in F3.
  destruct Hrun as [(Hwp & _)|(_ & ok2 & jt & s3 & Hbr & Hrun)].
  { rewrite W, P, Hwait, Hpause in Hwp. discriminate Hwp. }
  unfold select_branch in Hbr. rewrite F1, F2 in Hbr. simpl in Hbr.
  injection Hbr as <- <- <-.
  destruct Hrun as [(Hf & _)|(_ & Hrun)]; [discriminate Hf|].
  apply halt_and_publish_zero_command in Hrun as (halted & Hh & Hc & Hor & Hout);
    [|exact F3].
  rewrite Zc in Hc. rewrite Pp, Zc in Hout. fold p limit count in Hc, Hout.
  apply suddenHalt_first_point in Hh as (_ & _ & pt & Hpt & Hv & Hpos).
  rewrite Pp, Nj in Hv, Hpos. fold p in Hv, Hpos. rewrite <- Hor in Hpos.
  split; [exact Hc|]. split.
  - intros Hno. rewrite Hno in Hout. exact Hout.
  - intros Hyes. rewrite Hyes in Hout. exists halted, pt.
    split; [exact Hpt|]. split; [exact Hv|]. split; [exact Hpos|]. split.
    + intros Hty. rewrite Hout, Hty. reflexivity.
    + intros Hty. rewrite Hout, Hty. simpl.
      destruct (points halted); [discriminate Hpt|].
      injection Hpt as <-. reflexivity.
Qed.

End HaltCounter.

Lemma halt_messages_counted_before_increment_witness :
  let s := single_servo_with_jog (jog_of 1 ["j1"] [d0]) in
  let r := default (s, nothing_published) (run (kin := single_kinematics) 2 s) in
  zero_velocity_count_ s = 0 /\ zero_velocity_count_ r.1 = 1 /\
  pub_command r.2 = Some (single_halt_command 2).
Proof.
  intros s r.
  destruct (proj2 (halt_messages_counted_before_increment (kin := single_kinematics))
              2 s r.1 r.2 single_joint_state) as (A & _ & _);
    try (vm_compute; reflexivity).
  split; [vm_compute; reflexivity|]. split; [rewrite A|]; vm_compute; reflexivity.
Defined.

(** A nonzero command that has gone stale is not run, but it still counts
    as a nonzero command: every tick resets the counter and publishes, well
    past the limit of 2. *)
Lemma stale_nonzero_command_keeps_publishing :
  option_map (fun r => (twist_command_is_stale_ r.1, select_branch r.1,
                        zero_velocity_count_ r.1, published_command r.2))
    (execute (kin := single_kinematics)
       (ticks_after_twist unit_twist
          [5000000000; 6000000000; 7000000000; 8000000000; 9000000000])
       (single_servo example_parameters))
  = Some (true, NoMotionBranch, 0, [false; true; true; true; true; true]).
Proof. vm_compute. reflexivity. Qed.

(* ===================================================================== *)
(** ** Properties: a jog command without velocities                       *)
(* ===================================================================== *)

Section EmptyJog.

Context {kin : Kinematics} {lpf : LowPassFilter}.



End EmptyJog.




Section EmittedPoint.

Context {kin : Kinematics} {lpf : LowPassFilter}.


End EmittedPoint.


Section VelocityBound.

Context {kin : Kinematics} {lpf : LowPassFilter}.


End VelocityBound.



(* ===================================================================== *)
(** ** Further properties: the singularity scale                          *)
(* ===================================================================== *)

(** With finite thresholds [lower < hard] and a finite condition number,
    the scale returned for the singularity lies in [0, 1], whatever the
    direction of motion. *)
Theorem singularity_scale_in_unit_interval
    (p : ServoParameters) (dot : double) (lower hard kappa : Q) :
  lower_singularity_threshold p = Fin lower ->
  hard_stop_singularity_threshold p = Fin hard ->
  (lower < hard)%Q ->
  exists q, (singularity_scale p dot (Fin kappa)).1 = Fin q /\ (0 <= q <= 1)%Q.
Proof.
  intros Hl Hh Hlh. unfold singularity_scale. rewrite Hl, Hh.
  destruct (dot >? d0)%D; [|exists 1%Q; split; [reflexivity|lra]].
  unfold dgtb. cbn [dltb].
  destruct (Qltb lower kappa) eqn:E1; cbn [andb].
  - destruct (Qltb kappa hard) eqn:E2.
    + apply Qltb_true in E1, E2.
      assert (Hnz : Qeq_bool (hard + - lower) 0 = false)
        by (apply Qeq_bool_false; lra).
      unfold d1. cbn [dsub dadd dneg ddiv fst]. rewrite Hnz. cbn [dadd dneg fst].
      eexists. split; [reflexivity|].
      assert (Hr : (0 <= (kappa + - lower) / (hard + - lower) <= 1)%Q).
      { split; [apply Qdiv_ge_iff|apply Qdiv_le_iff]; lra. }
      lra.
    + destruct (Qltb hard kappa); [exists 0%Q|exists 1%Q];
        (split; [reflexivity|lra]).
  - destruct (Qltb hard kappa); [exists 0%Q|exists 1%Q];
      (split; [reflexivity|lra]).
Qed.

Lemma singularity_scale_in_unit_interval_witness :
  exists q, (singularity_scale example_parameters d1 (Fin 20)).1 = Fin q /\
            (0 <= q <= 1)%Q.
Proof.
  apply (singularity_scale_in_unit_interval example_parameters d1
           (inject_Z 17) (inject_Z 30) 20); [reflexivity|reflexivity|].
  vm_compute. reflexivity.
Defined.

(* ===================================================================== *)
(** ** Further properties: the worst-case stop time                       *)
(* ===================================================================== *)

Section StopTime.

Context {kin : Kinematics} {lpf : LowPassFilter}.

Lemma dmax_proper (w x : double) :
  proper_stop_time w -> proper_stop_time (dmax w (fabs x)).
Proof.
  intros [Hn Hp]. unfold dmax.
  destruct (w <? fabs x)%D eqn:E; [|split; assumption].
  destruct x as [q| | |]; cbn [fabs] in *.
  - split; [reflexivity|]. unfold dleb. cbn [dltb deqb d0].
    destruct (Qltb 0 (Qabs q)) eqn:E0; [reflexivity|]. cbn [orb].
    apply Qltb_false in E0. apply Qeq_bool_iff.
    pose proof (Qabs_nonneg q). lra.
  - split; reflexivity.
  - split; reflexivity.
  - destruct w; discriminate E.
Qed.

(** The stop time that a tick publishes is never NaN and never negative,
    whatever the joint state and the limits of the robot. *)
Theorem stop_time_is_a_nonnegative_number (s : ServoCalcs) (t : double) :
  calculateWorstCaseStopTime s = Some t -> proper_stop_time t.
Proof.
  unfold calculateWorstCaseStopTime. intros H.
  destruct (incoming_joint_state_ s) as [incoming|]; [|discriminate].
  cbn [mbind option_bind] in H.
  destruct (foldl _ _ _) as [[a w]|] eqn:E; [|discriminate].
  injection H as <-. simpl.
  assert (Hgen : forall l acc a w,
            foldl (stop_time_step incoming) acc l = Some (a, w) ->
            (forall a0 w0, acc = Some (a0, w0) -> proper_stop_time w0) ->
            proper_stop_time w).
  { clear. induction l as [|i l IH]; intros acc a w H Hacc.
    - simpl in H. eapply Hacc. exact H.
    - simpl in H. eapply IH; [exact H|].
      intros a1 w1 Hs. unfold stop_time_step in Hs.
      destruct acc as [[a0 w0]|]; [|discriminate]. cbn [mbind option_bind] in Hs.
      destruct (js_name incoming !! i); [|discriminate].
      cbn [mbind option_bind] in Hs.
      destruct (match find_joint_model _ with Some _ => _ | None => _ end);
        [|discriminate].
      cbn [mbind option_bind] in Hs.
      destruct (js_velocity incoming !! i); [|discriminate].
      cbn [mbind option_bind] in Hs. injection Hs as <- <-.
      apply dmax_proper. eapply Hacc. reflexivity. }
  eapply Hgen; [exact E|].
  intros a0 w0 H0. injection H0 as <- <-. split; reflexivity.
Qed.

End StopTime.

Lemma stop_time_is_a_nonnegative_number_witness :
  proper_stop_time
    (default NaN (calculateWorstCaseStopTime (kin := planar_kinematics)
                    (jointStateCB planar_moving_j2_first planar_servo))).
Proof.
  apply (stop_time_is_a_nonnegative_number (kin := planar_kinematics)
           (jointStateCB planar_moving_j2_first planar_servo)).
  vm_compute. reflexivity.
Defined.

(* ===================================================================== *)
(** ** Further properties: redundant points, for any count                *)
(* ===================================================================== *)




(* ===================================================================== *)
(** ** Further properties: drift dimensions                               *)
(* ===================================================================== *)

Lemma delete_beyond {A} (l : list A) :
  forall i, (length l <= i)%nat -> delete i l = l.
Proof.
  induction l as [|a l IH]; intros i Hi; [destruct i; reflexivity|].
  destruct i; simpl in *; [lia|]. f_equal. apply IH. lia.
Qed.

Section Drift.

Context {lpf : LowPassFilter}.

(** Removing the drift dimensions keeps the Jacobian and the Cartesian
    delta in step, never removes the last row, and removes nothing when no
    dimension may drift. *)
Theorem removeDriftDimensions_keeps_a_row
    (s : ServoCalcs) (jacobian : matrix) (delta_x : vec) :
  (1 <= mrows jacobian)%nat ->
  length delta_x = mrows jacobian ->
  let r := removeDriftDimensions s jacobian delta_x in
  (1 <= mrows r.1 <= mrows jacobian)%nat /\
  length r.2 = mrows r.1 /\
  (Forall (fun d => d = false) (drift_dimensions_ s) -> r = (jacobian, delta_x)).
Proof.
  unfold removeDriftDimensions, mrows. intros H1 Hlen.
  generalize (reverse (seq 0 (length jacobian))). intros l.
  assert (Hgen : forall m dx,
            (1 <= length m <= length jacobian)%nat -> length dx = length m ->
            let r := foldl (fun '(m, dx) dimension =>
                              if dim (drift_dimensions_ s) dimension &&
                                 (1 <? length m)%nat
                              then removeDimension m dx dimension
                              else (m, dx)) (m, dx) l in
            (1 <= length r.1 <= length jacobian)%nat /\ length r.2 = length r.1 /\
            (Forall (fun d => d = false) (drift_dimensions_ s) -> r = (m, dx))).
  { induction l as [|d l IH]; intros m dx Hm Hdx; simpl.
    - auto.
    - destruct (dim (drift_dimensions_ s) d && (1 <? length m)%nat) eqn:E.
      + apply andb_true_iff in E as [Ed Em]. apply Nat.ltb_lt in Em.
        unfold removeDimension.
        destruct (decide (d < length m)%nat) as [Hd|Hd].
        * destruct (IH (delete d m) (delete d dx)) as (A & B & C).
          { rewrite length_delete by (apply lookup_lt_is_Some; lia). lia. }
          { rewrite !length_delete by (apply lookup_lt_is_Some; lia). lia. }
          split; [exact A|]. split; [exact B|].
          intros Hall. exfalso. unfold dim in Ed.
          destruct (drift_dimensions_ s !! d) as [b|] eqn:Eb; [|discriminate Ed].
          simpl in Ed. subst b.
          eapply Forall_lookup_1 in Hall; [|exact Eb]. discriminate Hall.
        * rewrite !delete_beyond by lia.
          destruct (IH m dx Hm Hdx) as (A & B & C).
          split; [exact A|]. split; [exact B|].
          intros Hall. exfalso. unfold dim in Ed.
          destruct (drift_dimensions_ s !! d) as [b|] eqn:Eb; [|discriminate Ed].
          simpl in Ed. subst b.
          eapply Forall_lookup_1 in Hall; [|exact Eb]. discriminate Hall.
      + apply IH; assumption. }
  apply Hgen; [lia|exact Hlen].
Qed.

End Drift.

Lemma removeDriftDimensions_keeps_a_row_witness :
  let s := changeDriftDimensions [true; true; true; true; true; true]
             (single_servo example_parameters) in
  let r := removeDriftDimensions s [[d1]; [d0]; [d0]] [d1; d0; d0] in
  (1 <= mrows r.1 <= 3)%nat /\ length r.2 = mrows r.1 /\
  (Forall (fun d => d = false) (drift_dimensions_ s) ->
   r = ([[d1]; [d0]; [d0]], [d1; d0; d0])).
Proof.
  intros s r.
  apply (removeDriftDimensions_keeps_a_row s [[d1]; [d0]; [d0]] [d1; d0; d0]);
    [vm_compute; lia|reflexivity].
Defined.

(* ===================================================================== *)
(** ** Further properties: waiting and paused ticks                       *)
(* ===================================================================== *)

Section IdleTick.

Context {kin : Kinematics} {lpf : LowPassFilter}.

(** A tick of a servo that is paused or still waiting for its first
    command, with a joint state that names enough joints: it publishes the
    previous status and no command, leaves the halt counter and the last
    sent command alone, resets the status and marks the filters as updated.
    Afterwards the servo waits exactly when neither command carries a
    stamp. *)
Theorem idle_tick_publishes_no_command
    (now : Z) (s s' : ServoCalcs) (out : Published) (js : JointState) :
  wait_for_servo_commands_ s || paused_ s = true ->
  incoming_joint_state_ s = Some js ->
  (num_joints_ s <= length (js_name js))%nat ->
  run now s = Some (s', out) ->
  pub_status out = Some (status_to_int8 (status_ s)) /\
  pub_command out = None /\
  status_ s' = NO_WARNING /\
  zero_velocity_count_ s' = zero_velocity_count_ s /\
  last_sent_command_ s' = last_sent_command_ s /\
  paused_ s' = paused_ s /\
  updated_filters_ s' = true /\
  wait_for_servo_commands_ s' =
    (stamp (ts_header (twist_stamped_cmd_ s')) =? 0) &&
    (stamp (jj_header (joint_servo_cmd_ s')) =? 0).
Proof.
  intros Hidle Hjs Hlen Hrun.
  apply run_inv in Hrun as (ok & s1 & E1 & Hst & Hrun).
  pose proof (updateJoints_ok _ _ _ E1) as (incoming & Hinc & Hok).
  simpl in Hinc, Hok. rewrite Hjs in Hinc. injection Hinc as <-.
  assert (Hok' : ok = true).
  { rewrite Hok. apply negb_true_iff, Nat.ltb_ge. exact Hlen. }
  clear Hok. subst ok.
  apply updateJoints_frame in E1 as [js1 ->].
  split; [exact Hst|].
  destruct Hrun as [(Hf & _)|(_ & worst & s2 & _ & E2 & _ & Hrun)];
    [discriminate Hf|].
  pose proof (update_from_latest_state_frame _ _ _ E2)
    as (W & P & _ & St & Zc & Ls & _).
  simpl in W, P, St, Zc, Ls.
  destruct Hrun as [(_ & (s3 & E3 & ->) & _ & Hc)|(Hwp & _)].
  2: { rewrite W, P, Hidle in Hwp. discriminate Hwp. }
  apply resetLowPassFilters_frame in E3 as [fs ->].
  simpl. repeat split; auto.
Qed.

End IdleTick.

Lemma idle_tick_publishes_no_command_witness :
  let s := setPaused true (single_servo_with_jog (jog_of 1 ["j1"] [d1])) in
  let r := default (s, nothing_published) (run (kin := single_kinematics) 2 s) in
  pub_status r.2 = Some (status_to_int8 (status_ s)) /\
  pub_command r.2 = None /\
  status_ r.1 = NO_WARNING /\
  zero_velocity_count_ r.1 = zero_velocity_count_ s /\
  last_sent_command_ r.1 = last_sent_command_ s /\
  paused_ r.1 = paused_ s /\
  updated_filters_ r.1 = true /\
  wait_for_servo_commands_ r.1 =
    (stamp (ts_header (twist_stamped_cmd_ r.1)) =? 0) &&
    (stamp (jj_header (joint_servo_cmd_ r.1)) =? 0).
Proof.
  intros s r.
  apply (idle_tick_publishes_no_command (kin := single_kinematics) 2 s r.1 r.2
           single_joint_state); vm_compute; reflexivity.
Defined.

(* ===================================================================== *)
(** ** Further properties: construction                                   *)
(* ===================================================================== *)

Section Construction.

Context {kin : Kinematics} {lpf : LowPassFilter}.

(** The index map built from a list of names: an entry points at a
    position that holds the name, and every name has an entry. *)
Lemma name_map_loop (l : list string) :
  forall (k : nat) (m : gmap string nat),
    let r := foldl (fun m '(i, n) => <[n := i]> m) m
               (imap (fun j n => ((k + j)%nat, n)) l) in
    (forall n i, r !! n = Some i ->
       m !! n = Some i \/ exists j, i = (k + j)%nat /\ l !! j = Some n) /\
    (forall n, n ∈ l -> is_Some (r !! n)) /\
    (forall n, is_Some (m !! n) -> is_Some (r !! n)).
Proof.
  induction l as [|a l IH]; intros k m; simpl.
  - repeat split; auto. intros n Hn. inversion Hn.
  - rewrite (imap_ext _ (fun j n => ((S k + j)%nat, n)))
      by (intros; simpl; f_equal; lia).
    destruct (IH (S k) (<[a := (k + 0)%nat]> m)) as (A & B & C).
    split; [|split].
    + intros n i Hr. destruct (A n i Hr) as [Hm|(j & -> & Hj)].
      * destruct (decide (a = n)) as [->|Hne].
        -- rewrite lookup_insert_eq in Hm. injection Hm as <-.
           right. exists 0%nat. auto.
        -- rewrite lookup_insert_ne in Hm by exact Hne. left. exact Hm.
      * right. exists (S j). split; [lia|exact Hj].
    + intros n Hn. apply elem_of_cons in Hn as [->|Hn]; [|apply B; exact Hn].
      apply C. rewrite lookup_insert_eq. eauto.
    + intros n Hn. apply C. destruct (decide (a = n)) as [->|Hne].
      * rewrite lookup_insert_eq. eauto.
      * rewrite lookup_insert_ne by exact Hne. exact Hn.
Qed.

(** A freshly constructed servo: every vector sized by the number of
    joints has that size, the index map sends a name only to an index that
    holds it (so below the number of joints), and it knows every joint of
    the group. *)
Theorem constructor_sizes_and_name_map
    (p : ServoParameters) (rs : RobotState) (tf0 : Isometry3d) :
  let s := ServoCalcs_new p rs tf0 in
  num_joints_ s = length getActiveJointModels /\
  js_name (internal_joint_state_ s) = group_names /\
  length (js_position (internal_joint_state_ s)) = num_joints_ s /\
  length (js_velocity (internal_joint_state_ s)) = num_joints_ s /\
  length (position_filters_ s) = num_joints_ s /\
  length (prev_joint_velocity_ s) = num_joints_ s /\
  (forall n i, joint_state_name_map_ s !! n = Some i ->
     group_names !! i = Some n /\ (i < num_joints_ s)%nat) /\
  (forall n, n ∈ group_names -> is_Some (joint_state_name_map_ s !! n)).
Proof.
  intros s. unfold s, ServoCalcs_new. cbn [num_joints_ internal_joint_state_
    js_name js_position js_velocity position_filters_ prev_joint_velocity_
    joint_state_name_map_].
  unfold vzero. rewrite !length_replicate.
  assert (Hg : length group_names = length getActiveJointModels)
    by (unfold group_names; apply length_fmap).
  repeat (split; [first [reflexivity | exact Hg | symmetry; exact Hg]|]).
  change (imap pair group_names)
    with (imap (fun j n => ((0 + j)%nat, n)) group_names).
  destruct (name_map_loop group_names 0 ∅) as (A & B & _).
  split.
  - intros n i Hn. destruct (A n i Hn) as [He|(j & -> & Hj)].
    + rewrite lookup_empty in He. discriminate He.
    + split; [exact Hj|]. apply lookup_lt_Some in Hj. exact Hj.
  - exact B.
Qed.

End Construction.

(* ===================================================================== *)
(** ** Further properties: reading the joint state                        *)
(* ===================================================================== *)

Section JointsLoop.

Variables (m : gmap string nat) (incoming : JointState).

(** One pass of the loop of [updateJoints]. *)
Let joints_step : option vec -> nat * string -> option vec :=
  fun acc '(i, nm) =>
    pos ← acc;
    match m !! nm with
    | None => Some pos
    | Some c =>
        p ← js_position incoming !! i;
        if (c <? length pos)%nat then Some (<[c := p]> pos) else None
    end.

Lemma joints_step_None (l : list (nat * string)) : foldl joints_step None l = None.
Proof. induction l as [|[? ?] l IH]; simpl; auto. Qed.

(** The loop of [updateJoints] keeps the number of positions, and changes
    no position whose index is not the map's entry of a name in the
    message. *)
Lemma updateJoints_loop (l : list (nat * string)) :
  forall pos pos' : vec,
    foldl joints_step (Some pos) l = Some pos' ->
    length pos' = length pos /\
    (forall c, (forall i nm, (i, nm) ∈ l -> m !! nm <> Some c) ->
       pos' !! c = pos !! c).
Proof.
  induction l as [|[i nm] l IH]; intros pos pos' H.
  - simpl in H. injection H as <-. auto.
  - simpl in H.
    destruct (m !! nm) as [c|] eqn:Ec.
    + destruct (js_position incoming !! i) as [p|]; simpl in H;
        [|rewrite joints_step_None in H; discriminate].
      destruct (c <? length pos)%nat; [|rewrite joints_step_None in H; discriminate].
      apply IH in H as (Hlen & Hkeep). rewrite length_insert in Hlen.
      split; [exact Hlen|].
      intros c' Hc'. rewrite Hkeep.
      * apply list_lookup_insert_ne. intros ->.
        apply (Hc' i nm); [left|exact Ec].
      * intros i' nm' Hin. apply (Hc' i' nm'). right. exact Hin.
    + apply IH in H as (Hlen & Hkeep). split; [exact Hlen|].
      intros c' Hc'. apply Hkeep. intros i' nm' Hin. apply (Hc' i' nm'). right. exact Hin.
Qed.

End JointsLoop.

Section ReadingJoints.

Context {lpf : LowPassFilter}.

(** [updateJoints] refuses a joint state with fewer names than the group
    has joints and then changes nothing.  When it accepts, the original
    joint state is the internal one, names, velocities and the number of
    positions are kept, and a position is left alone unless some name of
    the message is mapped to its index. *)
Theorem updateJoints_reads_known_joints
    (s s' : ServoCalcs) (incoming : JointState) (ok : bool) :
  incoming_joint_state_ s = Some incoming ->
  updateJoints s = Some (ok, s') ->
  ok = negb (length (js_name incoming) <? num_joints_ s)%nat /\
  (ok = false -> s' = s) /\
  (ok = true ->
   original_joint_state_ s' = internal_joint_state_ s' /\
   js_name (internal_joint_state_ s') = js_name (internal_joint_state_ s) /\
   js_velocity (internal_joint_state_ s') = js_velocity (internal_joint_state_ s) /\
   length (js_position (internal_joint_state_ s'))
     = length (js_position (internal_joint_state_ s)) /\
   forall c, (forall nm, nm ∈ js_name incoming ->
                joint_state_name_map_ s !! nm <> Some c) ->
     js_position (internal_joint_state_ s') !! c
       = js_position (internal_joint_state_ s) !! c).
Proof.
  unfold updateJoints. intros Hinc H. rewrite Hinc in H.
  cbn [mbind option_bind] in H.
  destruct (length (js_name incoming) <? num_joints_ s)%nat.
  - injection H as <- <-. split; [reflexivity|]. split; [auto|discriminate].
  - destruct (foldl _ _ _) as [pos|] eqn:E; [|discriminate].
    cbn [mbind option_bind] in H. injection H as <- <-.
    split; [reflexivity|]. split; [discriminate|]. intros _.
    apply updateJoints_loop in E as (Hlen & Hkeep). simpl.
    repeat split; auto.
    intros c Hc. apply Hkeep. intros i nm Hin.
    apply Hc. apply elem_of_lookup_imap in Hin as (i' & nm' & Heq & Hl).
    injection Heq as -> ->. eapply list_elem_of_lookup_2. exact Hl.
Qed.

End ReadingJoints.

Lemma updateJoints_reads_known_joints_witness :
  let s := jointStateCB
             {| js_name := ["j2"; "other"]; js_position := [dZ 7; dZ 9];
                js_velocity := [] |} planar_servo in
  let r := default (false, s) (updateJoints s) in
  r.1 = true /\
  js_position (internal_joint_state_ r.2) = [d0; dZ 7] /\
  original_joint_state_ r.2 = internal_joint_state_ r.2.
Proof.
  intros s r.
  destruct (updateJoints_reads_known_joints s r.2
              {| js_name := ["j2"; "other"]; js_position := [dZ 7; dZ 9];
                 js_velocity := [] |} r.1) as (A & _ & C);
    try (vm_compute; reflexivity).
  split; [rewrite A; vm_compute; reflexivity|].
  split; [vm_compute; reflexivity|].
  apply C. rewrite A. vm_compute. reflexivity.
Defined.

(* ===================================================================== *)
(** ** Further properties: starting                                       *)
(* ===================================================================== *)

Section Starting.

Context {lpf : LowPassFilter}.


End Starting.


(* ===================================================================== *)
(** ** Further properties: scaling a jog command                          *)
(* ===================================================================== *)

Section JogLoop.

Variables (p : ServoParameters) (m : gmap string nat) (command : JointJog).

(** One pass of the loop of [scaleJointCommand]. *)
Let jog_step : option vec -> nat * string -> option vec :=
  fun acc '(i, nm) =>
    result ← acc;
    match m !! nm with
    | None => Some result
    | Some c =>
        if streq (command_in_type p) "unitless" then
          v ← jj_velocities command !! i;
          if (c <? length result)%nat
          then Some (<[c := (v * joint_scale p * publish_period p)%D]> result)
          else None
        else if streq (command_in_type p) "speed_units" then
          v ← jj_velocities command !! i;
          if (c <? length result)%nat
          then Some (<[c := (v * publish_period p)%D]> result)
          else None
        else Some result
    end.

Lemma jog_step_None (l : list (nat * string)) : foldl jog_step None l = None.
Proof. induction l as [|[? ?] l IH]; simpl; auto. Qed.

Lemma scaleJointCommand_loop (l : list (nat * string)) :
  forall result result' : vec,
    foldl jog_step (Some result) l = Some result' ->
    length result' = length result /\
    (forall c, (forall i nm, (i, nm) ∈ l -> m !! nm <> Some c) ->
       result' !! c = result !! c).
Proof.
  induction l as [|[i nm] l IH]; intros result result' H.
  - simpl in H. injection H as <-. auto.
  - simpl in H.
    assert (Hkeep : forall r1, foldl jog_step (Some r1) l = Some result' ->
              length r1 = length result ->
              (forall c, m !! nm <> Some c -> r1 !! c = result !! c) ->
              length result' = length result /\
              (forall c, (forall i0 nm0, (i0, nm0) ∈ (i, nm) :: l -> m !! nm0 <> Some c) ->
                 result' !! c = result !! c)).
    { intros r1 Hr Hl Hsame. apply IH in Hr as (Hlen & Hk).
      split; [lia|]. intros c Hc. rewrite Hk.
      - apply Hsame. apply (Hc i nm). left.
      - intros i0 nm0 Hin. apply (Hc i0 nm0). right. exact Hin. }
    destruct (m !! nm) as [c|] eqn:Ec; [|eapply Hkeep; [exact H|reflexivity|auto]].
    destruct (streq (command_in_type p) "unitless") in H.
    + destruct (jj_velocities command !! i) as [v|]; simpl in H;
        [|rewrite jog_step_None in H; discriminate].
      destruct (c <? length result)%nat; [|rewrite jog_step_None in H; discriminate].
      eapply Hkeep; [exact H|apply length_insert|].
      intros c' Hc'. apply list_lookup_insert_ne. congruence.
    + destruct (streq (command_in_type p) "speed_units") in H; [|eapply Hkeep; [exact H|reflexivity|auto]].
      destruct (jj_velocities command !! i) as [v|]; simpl in H;
        [|rewrite jog_step_None in H; discriminate].
      destruct (c <? length result)%nat; [|rewrite jog_step_None in H; discriminate].
      eapply Hkeep; [exact H|apply length_insert|].
      intros c' Hc'. apply list_lookup_insert_ne. congruence.
Qed.

End JogLoop.

Section ScalingJog.

Context {lpf : LowPassFilter}.

(** The joint deltas that [scaleJointCommand] returns have one entry per
    joint, and the entry of a joint is 0 unless the command names a joint
    that the map sends to it: joints that the command does not name, and
    names that the servo does not know, contribute nothing. *)
Theorem scaleJointCommand_moves_named_joints
    (s : ServoCalcs) (command : JointJog) (delta : vec) :
  scaleJointCommand s command = Some delta ->
  length delta = num_joints_ s /\
  forall c, (c < num_joints_ s)%nat ->
    (forall nm, nm ∈ jj_joint_names command ->
       joint_state_name_map_ s !! nm <> Some c) ->
    delta !! c = Some d0.
Proof.
  unfold scaleJointCommand. intros H.
  apply scaleJointCommand_loop in H as (Hlen & Hkeep).
  unfold vzero in *. rewrite length_replicate in Hlen. split; [exact Hlen|].
  intros c Hc Hn. rewrite Hkeep.
  - apply lookup_replicate_2. exact Hc.
  - intros i nm Hin. apply Hn.
    apply elem_of_lookup_imap in Hin as (i' & nm' & Heq & Hl).
    injection Heq as -> ->. eapply list_elem_of_lookup_2. exact Hl.
Qed.

End ScalingJog.

Lemma scaleJointCommand_moves_named_joints_witness :
  let delta := default [] (scaleJointCommand planar_servo
                             (jog_of 1 ["j2"; "other"] [dZ 5; dZ 6])) in
  (delta = [d0; (dZ 5 * d1)%D]) /\
  length delta = 2%nat /\
  forall c, (c < 2)%nat ->
    (forall nm, nm ∈ ["j2"; "other"] ->
       joint_state_name_map_ planar_servo !! nm <> Some c) ->
    delta !! c = Some d0.
Proof.
  intros delta. split; [vm_compute; reflexivity|].
  apply (scaleJointCommand_moves_named_joints planar_servo
           (jog_of 1 ["j2"; "other"] [dZ 5; dZ 6]) delta).
  vm_compute. reflexivity.
Defined.

(* ===================================================================== *)
(** ** Further properties: control dimensions                             *)
(* ===================================================================== *)

Section ControlDimensions.

Context {lpf : LowPassFilter}.

(** Enforcing the control dimensions twice is the same as once, the header
    is kept, and once [changeControlDimensions] has switched every
    dimension off, any command comes out as a zero twist. *)
Theorem enforceControlDimensions_masks
    (s : ServoCalcs) (command : TwistStamped) :
  enforceControlDimensions s (enforceControlDimensions s command)
    = enforceControlDimensions s command /\
  ts_header (enforceControlDimensions s command) = ts_header command /\
  isNonZero_twist
    (enforceControlDimensions
       (changeControlDimensions [false; false; false; false; false; false] s)
       command) = false /\
  enforceControlDimensions
    (changeControlDimensions [true; true; true; true; true; true] s) command
    = command.
Proof.
  destruct command as [hdr [[a b c] [d e f]]].
  unfold enforceControlDimensions. cbn [twist linear angular x y z ts_header].
  split; [|split; [reflexivity|split; reflexivity]].
  destruct (dim (control_dimensions_ s) 0), (dim (control_dimensions_ s) 1),
    (dim (control_dimensions_ s) 2), (dim (control_dimensions_ s) 3),
    (dim (control_dimensions_ s) 4), (dim (control_dimensions_ s) 5);
    reflexivity.
Qed.

End ControlDimensions.

(* ===================================================================== *)
(** ** Further properties: joints without limits                          *)
(* ===================================================================== *)

Section NoLimits.

Context {kin : Kinematics}.

(** When no joint of the group has velocity or acceleration bounds,
    [enforceSRDFAccelVelLimits] returns the deltas unchanged. *)
Theorem enforceSRDFAccelVelLimits_without_bounds
    (p : ServoParameters) (prev delta limited : vec) :
  Forall (fun joint =>
            Forall (fun b => velocity_bounded_ b = false /\
                             acceleration_bounded_ b = false)
                   (jm_variable_bounds joint))
         getActiveJointModels ->
  enforceSRDFAccelVelLimits p prev delta = Some limited ->
  limited = delta.
Proof.
  intros Hfree H.
  apply enforceSRDFAccelVelLimits_each in H as (Hlen & Hout & Hin).
  apply list_eq. intros i.
  destruct (getActiveJointModels !! i) as [joint|] eqn:Ej.
  - destruct (Hin i joint Ej) as (b & a & pv & Hb & Ha & _ & Hr).
    rewrite Hr, Ha. f_equal.
    eapply Forall_lookup_1 in Hfree; [|exact Ej].
    destruct (jm_variable_bounds joint) as [|b0 bs]; [discriminate Hb|].
    injection Hb as ->. apply Forall_cons in Hfree as [[Hv Hacc] _].
    unfold enforceSingleVelAccelLimit. rewrite Hv, Hacc. reflexivity.
  - apply Hout. apply lookup_ge_None. exact Ej.
Qed.

End NoLimits.

Lemma enforceSRDFAccelVelLimits_without_bounds_witness :
  default [] (enforceSRDFAccelVelLimits (kin := single_kinematics)
                example_parameters [d0] [dZ 1000]) = [dZ 1000].
Proof.
  apply (enforceSRDFAccelVelLimits_without_bounds (kin := single_kinematics)
           example_parameters [d0] [dZ 1000]).
  - repeat constructor.
  - vm_compute. reflexivity.
Defined.

(* ===================================================================== *)
(** ** Further properties: the joint update                               *)
(* ===================================================================== *)

Section JointUpdateSizes.

Context {lpf : LowPassFilter}.

(** [applyJointUpdate] returns false exactly when the sizes of the
    positions, the velocities, the deltas and the previous velocities
    differ.  When they agree and there is a filter for every position, it
    succeeds: every velocity and every previous velocity becomes
    [delta / publish_period], and every position becomes what its filter
    makes of [position + delta]. *)
Theorem applyJointUpdate_checks_sizes
    (p : ServoParameters) (filters : list filter_state) (delta_theta pv : vec)
    (js : JointState) :
  (length (js_position js) <= length filters)%nat ->
  let sizes_match :=
    length (js_position js) = length delta_theta /\
    length (js_velocity js) = length (js_position js) /\
    length pv = length (js_position js) in
  (~ sizes_match -> applyJointUpdate p filters delta_theta js pv = Some None) /\
  (sizes_match ->
   exists js' pv' fs',
     applyJointUpdate p filters delta_theta js pv = Some (Some (js', pv', fs')) /\
     js_name js' = js_name js /\
     js_velocity js' = vdiv delta_theta (publish_period p) /\
     pv' = vdiv delta_theta (publish_period p) /\
     length (js_position js') = length (js_position js) /\
     forall i pos d f,
       js_position js !! i = Some pos -> delta_theta !! i = Some d ->
       filters !! i = Some f ->
       js_position js' !! i = Some (filter f (pos + d)%D).2 /\
       fs' !! i = Some (filter f (pos + d)%D).1).
Proof.
  intros Hf sizes_match. split.
  - intros Hno. unfold applyJointUpdate.
    destruct (negb (length (js_position js) =? length delta_theta)%nat) eqn:E1;
      [reflexivity|].
    destruct (negb (length (js_velocity js) =? length (js_position js))%nat) eqn:E2;
      [reflexivity|].
    destruct (negb (length pv =? length (js_position js))%nat) eqn:E3;
      [reflexivity|].
    apply negb_false_iff, Nat.eqb_eq in E1, E2, E3.
    exfalso. apply Hno. repeat split; assumption.
  - intros (H1 & H2 & H3).
    destruct (update_loop_succeeds p delta_theta (length delta_theta) 0 js pv filters)
      as [[[js' pv'] fs'] E]; try lia.
    assert (Happ : applyJointUpdate p filters delta_theta js pv
                   = Some (Some (js', pv', fs'))).
    { unfold applyJointUpdate.
      rewrite H1, H2, H1, H3, H1, !Nat.eqb_refl. cbn [negb orb].
      match goal with |- context [foldl ?g ?a ?l] =>
        assert (E2 : foldl g a l = Some (js', pv', fs')) by exact E; rewrite E2
      end.
      reflexivity. }
    exists js', pv', fs'. split; [exact Happ|].
    destruct (applyJointUpdate_velocities _ _ _ _ _ _ _ _ Happ) as (Hv & Hpv & Hn & Hl).
    split; [exact Hn|]. split; [exact Hv|]. split; [exact Hpv|].
    split; [lia|].
    apply update_loop in E as (_ & _ & _ & _ & _ & _ & Hin).
    intros i pos d f Hpos Hd Hfi.
    destruct (Hin i) as (pos' & d' & f' & A & B & C & D & F & _).
    { apply lookup_lt_Some in Hd. lia. }
    rewrite Hpos in A. rewrite Hd in B. rewrite Hfi in C.
    injection A as <-. injection B as <-. injection C as <-. auto.
Qed.

End JointUpdateSizes.

Lemma applyJointUpdate_checks_sizes_witness :
  exists js' pv' fs',
    applyJointUpdate (lpf := passthrough_filter) example_parameters [d0; d0]
      [dZ 2; dZ 3] planar_joint_state [d0; d0] = Some (Some (js', pv', fs')) /\
    js_name js' = js_name planar_joint_state /\
    js_velocity js' = vdiv [dZ 2; dZ 3] (publish_period example_parameters) /\
    pv' = vdiv [dZ 2; dZ 3] (publish_period example_parameters) /\
    length (js_position js') = length (js_position planar_joint_state) /\
    forall i pos d f,
      js_position planar_joint_state !! i = Some pos -> [dZ 2; dZ 3] !! i = Some d ->
      [d0; d0] !! i = Some f ->
      js_position js' !! i = Some (filter (LowPassFilter := passthrough_filter) f (pos + d)%D).2 /\
      fs' !! i = Some (filter (LowPassFilter := passthrough_filter) f (pos + d)%D).1.
Proof.
  apply (proj2 (applyJointUpdate_checks_sizes (lpf := passthrough_filter)
                  example_parameters [d0; d0] [dZ 2; dZ 3] [d0; d0]
                  planar_joint_state ltac:(simpl; lia))).
  repeat split; reflexivity.
Defined.

(* ===================================================================== *)
(** ** Further properties: validation of jog commands                     *)
(* ===================================================================== *)

Section JogValidation.

Context {kin : Kinematics} {lpf : LowPassFilter}.

(** A jog command is accepted exactly when none of its velocities is NaN;
    infinite velocities pass.  A tick that selects an invalid jog command
    (it is the latest one, no nonzero twist is at hand, the command is not
    stale and the servo is neither waiting nor paused) publishes no command
    and ends with the status [NO_WARNING]. *)
Theorem invalid_jog_is_dropped (cmd : JointJog) :
  (checkValidCommand_jog cmd = true <->
     Forall (fun v => isnan v = false) (jj_velocities cmd)) /\
  forall (now : Z) (s s' : ServoCalcs) (out : Published),
    latest_joint_cmd_ s = Some cmd ->
    latest_nonzero_joint_cmd_ s = true ->
    latest_nonzero_twist_stamped_ s = false ->
    now - latest_joint_command_stamp_ s
      < duration_from_seconds (incoming_command_timeout (parameters_ s)) ->
    wait_for_servo_commands_ s = false ->
    paused_ s = false ->
    checkValidCommand_jog cmd = false ->
    run now s = Some (s', out) ->
    pub_command out = None /\ status_ s' = NO_WARNING.
Proof.
  split.
  - unfold checkValidCommand_jog. rewrite forallb_Forall.
    apply Forall_iff. intros v. apply negb_true_iff.
  - intros now s s' out Hcmd Hnz Htw Hfresh Hwait Hpause Hbad Hrun.
    apply run_inv in Hrun as (ok & s1 & E1 & _ & Hrun).
    apply updateJoints_frame in E1 as [js ->].
    destruct Hrun as [(-> & -> & Hc)|(-> & worst & s2 & _ & E2 & _ & Hrun)];
      [auto|].
    pose proof (update_from_latest_state_flags _ _ _ E2) as (F1 & F2 & _).
    pose proof (update_from_latest_state_commands _ _ _ E2) as (_ & C2 & _ & C4).
    pose proof (update_from_latest_state_frame _ _ _ E2) as (W & P & _ & St & _).
    simpl in F1, F2, C2, C4, W, P, St.
    rewrite Hcmd in C2. simpl in C2.
    destruct Hrun as [(Hwp & _ & _ & _)|(Hwp & ok2 & jt & s3 & Hbr & Hrun)].
    { rewrite W, P, Hwait, Hpause in Hwp. discriminate Hwp. }
    assert (G : (now - latest_joint_command_stamp_ s >=?
                   duration_from_seconds (incoming_command_timeout (parameters_ s)))
                = false)
      by (rewrite Z.geb_leb; apply Z.leb_gt; lia).
    unfold select_branch in Hbr. rewrite F1, F2, Htw, Hnz, C4, G in Hbr.
    cbn [andb negb] in Hbr. unfold jointServoCalcs in Hbr.
    rewrite C2, Hbad in Hbr. cbn [negb] in Hbr. injection Hbr as <- <- <-.
    destruct Hrun as [(_ & E3 & Hc)|(Hf & _)]; [|discriminate Hf].
    apply resetLowPassFilters_frame in E3 as [fs ->].
    split; [exact Hc|exact St].
Qed.

End JogValidation.

Lemma invalid_jog_is_dropped_witness :
  let s := single_servo_with_jog (jog_of 1 ["j1"] [NaN]) in
  let r := default (s, nothing_published) (run (kin := single_kinematics) 2 s) in
  pub_command r.2 = None /\ status_ r.1 = NO_WARNING.
Proof.
  intros s r.
  apply (proj2 (invalid_jog_is_dropped (kin := single_kinematics)
                  (jog_of 1 ["j1"] [NaN])) 2 s r.1 r.2);
    vm_compute; reflexivity.
Defined.
